(** * OMG-tools, [omgtools/problems/multiframeproblem.py]

    A shallow embedding of [MultiFrameProblem]: the frame builders
    ([create_frame], [get_min_nobs_frame], [update_frame_with_waypoint],
    [scale_up_frame], [create_next_frame]), the obstacle queries, the
    validity monitor [check_frame], [stop_criterium] and the geometry
    helpers, followed by the properties of the specification.

    Numbers.  Python floats are embedded as rationals [Q]: sums, products,
    quotients and comparisons are exact.  Python's [==] on floats is
    [Qeq_bool], and results are compared up to [Qeq].  A quotient by zero
    is [0] in [Q], where Python raises or numpy answers [inf]; a closed
    run that meets one says so.

    Imported names.  What the file imports and this repository slice does
    not contain (numpy's [sqrt], [arctan2], [cos], [sin], [tan], the
    geometry helpers, the shape methods [get_checkpoints] and [rotate]) is
    collected in the class [Imports]; general theorems hold for every
    instance, closed examples run on the instance [exact_imports]. *)

From Stdlib Require Import QArith Qabs Qround Qminmax Qcanon ZArith List Bool Lia Lqa.
Import ListNotations.
Local Open Scope Q_scope.

(** ** Comparisons as booleans *)

Definition Qleb (a b : Q) : bool := Qle_bool a b.
Definition Qltb (a b : Q) : bool := negb (Qle_bool b a).
Definition Qeqb (a b : Q) : bool := Qeq_bool a b.

Declare Scope py_scope.
Infix "<=?" := Qleb (at level 70, no associativity) : py_scope.
Infix "<?" := Qltb (at level 70, no associativity) : py_scope.
Infix "=?" := Qeqb (at level 70, no associativity) : py_scope.
Local Open Scope py_scope.

Lemma Qleb_true a b : (a <=? b) = true <-> a <= b.
Proof. apply Qle_bool_iff. Qed.

Lemma Qleb_false a b : (a <=? b) = false <-> b < a.
Proof.
  unfold Qleb. split; intro H.
  - apply Qnot_le_lt. intro Hle. apply Qle_bool_iff in Hle. congruence.
  - destruct (Qle_bool a b) eqn:E; [|reflexivity].
    apply Qle_bool_iff in E. exfalso. apply (Qlt_not_le _ _ H E).
Qed.

Lemma Qltb_true a b : (a <? b) = true <-> a < b.
Proof.
  unfold Qltb. rewrite negb_true_iff. apply Qleb_false.
Qed.

Lemma Qltb_false a b : (a <? b) = false <-> b <= a.
Proof.
  unfold Qltb. rewrite negb_false_iff. apply Qle_bool_iff.
Qed.

Lemma Qeqb_true a b : (a =? b) = true <-> a == b.
Proof. apply Qeq_bool_iff. Qed.

Lemma Qeqb_false a b : (a =? b) = false <-> ~ a == b.
Proof.
  unfold Qeqb. split; intro H.
  - apply Qeq_bool_neq, H.
  - destruct (Qeq_bool a b) eqn:E; [|reflexivity].
    apply Qeq_bool_iff in E. contradiction.
Qed.

(** Turns every boolean comparison in sight into its proposition. *)
Ltac qbool :=
  repeat match goal with
  | H : (_ <=? _) = true |- _ => apply Qleb_true in H
  | H : (_ <=? _) = false |- _ => apply Qleb_false in H
  | H : (_ <? _) = true |- _ => apply Qltb_true in H
  | H : (_ <? _) = false |- _ => apply Qltb_false in H
  | H : (_ =? _) = true |- _ => apply Qeqb_true in H
  | H : (_ =? _) = false |- _ => apply Qeqb_false in H
  | H : _ && _ = true |- _ => apply andb_true_iff in H; destruct H
  | H : _ || _ = false |- _ => apply orb_false_iff in H; destruct H
  | H : negb _ = true |- _ => apply negb_true_iff in H
  | H : negb _ = false |- _ => apply negb_false_iff in H
  end.

(** [lra] does not look through a quotient: this turns a division by a
    numeral into a product first. *)
Ltac qdiv :=
  unfold Qdiv in *;
  repeat match goal with
  | |- context [ / (Qmake ?n ?d) ] =>
      let v := eval vm_compute in (/ (Qmake n d)) in change (/ (Qmake n d)) with v
  | H : context [ / (Qmake ?n ?d) ] |- _ =>
      let v := eval vm_compute in (/ (Qmake n d)) in change (/ (Qmake n d)) with v in H
  end.

Ltac qlra := qdiv; lra.

(** ** Python exceptions *)

Inductive exn : Type :=
  | RuntimeError
  | ValueError
  | IndexError
  | KeyError
  | ZeroDivisionError
  | AttributeError
  | UnboundLocalError
  (** not a Python exception: a [while True] loop of the model was given
      too little fuel (see [enlarge_fuel_enough]) *)
  | OutOfFuel.

Inductive result (A : Type) : Type :=
  | Ok (a : A)
  | Raise (e : exn).
Arguments Ok {A} a.
Arguments Raise {A} e.

Definition bind {A B : Type} (c : result A) (k : A -> result B) : result B :=
  match c with
  | Ok a => k a
  | Raise e => Raise e
  end.

Notation "x <- c ;; k" := (bind c (fun x => k))
  (at level 61, c at next level, right associativity) : py_scope.
Notation "' p <- c ;; k" := (bind c (fun x => let p := x in k))
  (at level 61, p pattern, c at next level, right associativity) : py_scope.

Lemma bind_Ok {A B : Type} (c : result A) (k : A -> result B) (b : B) :
  bind c k = Ok b -> exists a, c = Ok a /\ k a = Ok b.
Proof.
  destruct c as [a|e]; simpl; intro H; [eauto | discriminate].
Qed.

Lemma bind_Raise {A B : Type} (c : result A) (k : A -> result B) (e : exn) :
  bind c k = Raise e -> c = Raise e \/ exists a, c = Ok a /\ k a = Raise e.
Proof.
  destruct c as [a|e']; simpl; intro H; [right; eauto | left; congruence].
Qed.

(** ** Points, shapes, borders *)

(** A waypoint [[x, y]]; [point[0]] is [fst], [point[1]] is [snd]. *)
Definition point : Type := (Q * Q)%type.
Definition line : Type := (point * point)%type.

(** Python's [==] on two coordinate lists. *)
Definition pt_eqb (p q : point) : bool :=
  (fst p =? fst q) && (snd p =? snd q).

Definition pt_eq (p q : point) : Prop :=
  fst p == fst q /\ snd p == snd q.

Lemma pt_eqb_true p q : pt_eqb p q = true <-> pt_eq p q.
Proof.
  unfold pt_eqb, pt_eq. rewrite andb_true_iff, !Qeqb_true. tauto.
Qed.

Lemma pt_eqb_refl p : pt_eqb p p = true.
Proof. apply pt_eqb_true. split; reflexivity. Qed.

(** [basics.shape]: the two shapes the file distinguishes with
    [isinstance]. *)
Inductive Shape : Type :=
  | Circle (radius : Q)
  | Rectangle (width height orientation : Q).

(** Modelled from the spec: [shape.get_canvas_limits()] of [basics.shape]
    is missing; the spec describes it as the shape's axis-aligned bounding
    box around its own centre, a circle being "approximated by its bounding
    square" and a rectangle being taken at orientation zero.  The result is
    [[[xmin, xmax], [ymin, ymax]]]. *)
Definition get_canvas_limits (s : Shape) : (Q * Q) * (Q * Q) :=
  match s with
  | Circle r => ((- r, r), (- r, r))
  | Rectangle w h _ => ((- (w / 2), w / 2), (- (h / 2), h / 2))
  end.

Class Imports : Type := {
  (** what [np.arctan2] returns; the file only ever passes it on to
      [np.cos], [np.sin] and [np.tan] *)
  angle : Type;
  np_sqrt : Q -> Q;
  np_arctan2 : Q -> Q -> angle;
  np_cos : angle -> Q;
  np_sin : angle -> Q;
  np_tan : angle -> Q;
  (** [basics.geometry] *)
  distance_between_points : point -> point -> Q;
  intersect_lines : line -> line -> point;
  intersect_line_segments : line -> line -> bool;
  (** [basics.shape]: [shape.get_checkpoints()[0]] and [shape.rotate] *)
  get_checkpoints : Shape -> list point;
  rotate : Q -> point -> point
}.

(** The dictionary built by [make_border]. *)
Record Border : Type := mkBorder {
  border_shape : Shape;
  border_position : Q * Q * Q;
  border_orientation : Q;
  limits : Q * Q * Q * Q
}.

(** [make_border(xmin, ymin, xmax, ymax)] *)
Definition make_border (xmin ymin xmax ymax : Q) : Border :=
  let width := xmax - xmin in
  let height := ymax - ymin in
  let angle := 0 in
  let position := ((xmax - xmin) * 0.5 + xmin, (ymax - ymin) * 0.5 + ymin, angle) in
  {| border_shape := Rectangle width height 0;
     border_position := position;
     border_orientation := angle;
     limits := (xmin, ymin, xmax, ymax) |}.

Definition b_xmin (b : Border) : Q := let '(x, _, _, _) := limits b in x.
Definition b_ymin (b : Border) : Q := let '(_, y, _, _) := limits b in y.
Definition b_xmax (b : Border) : Q := let '(_, _, x, _) := limits b in x.
Definition b_ymax (b : Border) : Q := let '(_, _, _, y) := limits b in y.

(** ** Obstacles, environment, frames *)

(** An obstacle of [environment.obstacles].  [sim_velocity] is
    [simulation['trajectories']['velocity']['values']] when both keys are
    there, [signals_position] and [signals_velocity] are the last columns of
    [signals['position']] and [signals['velocity']], [avoid] is
    [options['avoid']]. *)
Record Obstacle : Type := mkObstacle {
  obs_shape : Shape;
  sim_velocity : option (list point);
  signals_position : point;
  signals_velocity : point;
  avoid : bool
}.

Definition set_avoid (o : Obstacle) (a : bool) : Obstacle :=
  {| obs_shape := obs_shape o;
     sim_velocity := sim_velocity o;
     signals_position := signals_position o;
     signals_velocity := signals_velocity o;
     avoid := a |}.

(** [environment.room]: a rectangle of [room_width] by [room_height]
    (the file reads [room['shape'].width] and [.height]) centred at
    [room_position]. *)
Record Environment : Type := mkEnvironment {
  room_width : Q;
  room_height : Q;
  room_position : point;
  obstacles : list Obstacle
}.

Definition room_shape (e : Environment) : Shape :=
  Rectangle (room_width e) (room_height e) 0.

(** [room['shape'].get_canvas_limits()[0][1] + room['position'][0]] and its
    three companions. *)
Definition room_xmax (e : Environment) : Q :=
  snd (fst (get_canvas_limits (room_shape e))) + fst (room_position e).
Definition room_xmin (e : Environment) : Q :=
  fst (fst (get_canvas_limits (room_shape e))) + fst (room_position e).
Definition room_ymax (e : Environment) : Q :=
  snd (snd (get_canvas_limits (room_shape e))) + snd (room_position e).
Definition room_ymin (e : Environment) : Q :=
  fst (snd (get_canvas_limits (room_shape e))) + snd (room_position e).

Inductive FrameType : Type :=
  | Shift
  | MinNobs
  | OtherType.

(** The frame dictionary.  Obstacles are held by reference: a list of
    positions in [environment.obstacles].  Keys that a builder adds late
    are optional. *)
Record Frame : Type := mkFrame {
  ftype : FrameType;
  border : Border;
  waypoints : list point;
  endpoint_frame : option point;
  stationary_obstacles : option (list nat);
  moving_obstacles : option (list nat)
}.

(** The attributes of [MultiFrameProblem] the frame engine reads. *)
Record Problem : Type := mkProblem {
  curr_state : point;
  goal_state : point;
  veh_size : Q;
  frame_size : Q;
  global_path : list point;
  environment : Environment;
  motion_time : Q;
  frame : Frame;
  (** [None]: the attribute does not exist yet; [Some None]: it is [None] *)
  next_frame : option (option Frame)
}.

(** The problem after [self.frame] and [self.next_frame] are assigned. *)
Definition set_frames (self : Problem) (f : Frame) (nf : option (option Frame)) : Problem :=
  {| curr_state := curr_state self;
     goal_state := goal_state self;
     veh_size := veh_size self;
     frame_size := frame_size self;
     global_path := global_path self;
     environment := environment self;
     motion_time := motion_time self;
     frame := f;
     next_frame := nf |}.

(** [self.scale_factor = 1.2] *)
Definition scale_factor : Q := 1.2.

(** [__init__], lines 43-47: the vehicle dimension. *)
Definition vehicle_size (shape : Shape) : Q :=
  match shape with
  | Circle radius => radius
  | Rectangle width height _ => Qmax width height
  end.




(** ** Geometry helpers *)

(** [point_in_frame(point, frame=..., distance=...)] with [time=None]. *)
Definition point_in_frame (p : point) (b : Border) (distance : Q) : bool :=
  let '(xmin, ymin, xmax, ymax) := limits b in
  ((xmin + distance <=? fst p) && (fst p <=? xmax - distance))
  && ((ymin + distance <=? snd p) && (snd p <=? ymax - distance)).

(** Python 2's [round]: to the nearest integer, halves away from zero. *)
Definition py_round (q : Q) : Z :=
  if 0 <=? q then Qfloor (q + (1 # 2)) else Qceiling (q - (1 # 2)).

(** [N = int(round(self.motion_time/time_interval)+1)] *)
Definition sample_count (mt : Q) : Z := (py_round (mt / 0.5) + 1)%Z.

(** [range(n)] as rationals. *)
Definition py_range (n : Z) : list Q :=
  map (fun l => inject_Z (Z.of_nat l)) (seq 0 (Z.to_nat n)).

(** [point_in_frame(point, time=self.motion_time, velocity=...)]: the
    moving point.  [Ts = float(self.motion_time)/N] divides Python floats,
    which raises for [N = 0]. *)
Definition point_in_frame_moving (p v : point) (b : Border) (mt : Q) : result bool :=
  let '(xmin, ymin, xmax, ymax) := limits b in
  let N := sample_count mt in
  if (N =? 0)%Z then Raise ZeroDivisionError
  else
    let Ts := mt / inject_Z N in
    Ok (existsb (fun l =>
            ((xmin <=? fst p + l * Ts * fst v) && (fst p + l * Ts * fst v <=? xmax))
            && ((ymin <=? snd p + l * Ts * snd v) && (snd p + l * Ts * snd v <=? ymax)))
          (py_range (N + 1))).

Section Engine.
Context `{Imports}.

(** ** Obstacle queries *)

(** The test at the head of [get_stationary_obstacles_in_frame]: no
    velocity trajectory, or all its values zero. *)
Definition is_stationary (o : Obstacle) : bool :=
  match sim_velocity o with
  | None => true
  | Some values => forallb (fun vel => pt_eqb vel (0, 0)) values
  end.

(** The shapes the stationary query supports: a circle, or a rectangle
    with [orientation == 0]. *)
Definition supported_shape (s : Shape) : bool :=
  match s with
  | Circle _ => true
  | Rectangle _ _ orientation => orientation =? 0
  end.

(** Rectangle overlap of the frame with the obstacle's canvas moved to the
    obstacle's position (line 654). *)
Definition overlaps (b : Border) (o : Obstacle) : bool :=
  let '(xmin_f, ymin_f, xmax_f, ymax_f) := limits b in
  let '((xmin_obs, xmax_obs), (ymin_obs, ymax_obs)) := get_canvas_limits (obs_shape o) in
  let '(posx, posy) := signals_position o in
  let xmin_obs := xmin_obs + posx in
  let xmax_obs := xmax_obs + posx in
  let ymin_obs := ymin_obs + posy in
  let ymax_obs := ymax_obs + posy in
  (xmin_f <=? xmax_obs) && (xmin_obs <=? xmax_f)
  && (ymin_f <=? ymax_obs) && (ymin_obs <=? ymax_f).

(** The loop of [get_stationary_obstacles_in_frame] from position [idx]
    of [environment.obstacles] on. *)
Fixpoint stationary_loop (b : Border) (obs : list Obstacle) (idx : nat) : result (list nat) :=
  match obs with
  | [] => Ok []
  | obstacle :: rest =>
      if is_stationary obstacle then
        if supported_shape (obs_shape obstacle) then
          found <- stationary_loop b rest (S idx) ;;
          Ok (if overlaps b obstacle then idx :: found else found)
        else Raise RuntimeError
      else stationary_loop b rest (S idx)
  end.

(** [get_stationary_obstacles_in_frame(frame)] *)
Definition get_stationary_obstacles_in_frame (env : Environment) (b : Border) : result (list nat) :=
  stationary_loop b (obstacles env) 0.

(** Python's truth value of a list. *)
Definition nonempty {A : Type} (l : list A) : bool :=
  match l with
  | [] => false
  | _ :: _ => true
  end.

(** [not all(obstacle.signals['velocity'][:,-1] == [0.]*obstacle.n_dim)] *)
Definition is_moving (o : Obstacle) : bool :=
  negb (pt_eqb (signals_velocity o) (0, 0)).

(** The checkpoints of a moving obstacle, before rotation and shift
    (lines 678-692). *)
Definition obs_chck (s : Shape) : list point :=
  match s with
  | Circle _ =>
      let '((xmin, xmax), (ymin, ymax)) := get_canvas_limits s in
      [(0, 0); (xmin, ymin); (xmin, ymax); (xmax, ymax); (xmax, ymin)]
  | Rectangle _ _ _ => get_checkpoints s
  end.

(** Lines 700-705: rotate when the shape has an orientation, then move to
    the obstacle's position. *)
Definition vertex_of (o : Obstacle) (chck : point) : point :=
  let vertex :=
    match obs_shape o with
    | Circle _ => chck
    | Rectangle _ _ orientation => rotate orientation chck
    end in
  (fst vertex + fst (signals_position o), snd vertex + snd (signals_position o)).

(** The loop [for chck in obs_chck] (lines 698-725) on one obstacle:
    the obstacle's avoid flag and [obs_change] are threaded through; a hit
    sets the flag, overwrites [obs_change] and breaks. *)
Fixpoint chck_loop (b : Border) (mt : Q) (o : Obstacle) (avoid_old : bool)
    (chcks : list point) (avoid_now obs_change : bool) : result (bool * bool) :=
  match chcks with
  | [] => Ok (avoid_now, obs_change)
  | chck :: rest =>
      hit <- point_in_frame_moving (vertex_of o chck) (signals_velocity o) b mt ;;
      if hit then
        Ok (true, if eqb true avoid_old then false else true)
      else if avoid_now then chck_loop b mt o avoid_old rest false true
      else chck_loop b mt o avoid_old rest avoid_now obs_change
  end.

(** The loop [for obstacle in self.environment.obstacles] (lines 669-725):
    returns the obstacles with their new flags, the positions appended to
    [moving_obstacles] and [obs_change]. *)
Fixpoint moving_loop (b : Border) (mt : Q) (obs : list Obstacle) (idx : nat)
    (obs_change : bool) : result (list Obstacle * list nat * bool) :=
  match obs with
  | [] => Ok ([], [], obs_change)
  | obstacle :: rest =>
      let avoid_old := avoid obstacle in
      if is_moving obstacle then
        '(a, c) <- chck_loop b mt obstacle avoid_old (obs_chck (obs_shape obstacle))
                     (avoid obstacle) obs_change ;;
        '(rest', moving, c') <- moving_loop b mt rest (S idx) c ;;
        Ok (set_avoid obstacle a :: rest', idx :: moving, c')
      else
        '(rest', moving, c') <- moving_loop b mt rest (S idx) obs_change ;;
        Ok (obstacle :: rest', moving, c')
  end.

(** [get_moving_obstacles_in_frame()]: [obs] is [environment.obstacles],
    [b] the border of [self.frame], [mt] is [self.motion_time], [prev] is
    [self._moving_obs] when the attribute exists.  The result is the
    obstacles after the call, the returned pair, and the new
    [self._moving_obs] (the returned list). *)
Definition get_moving_obstacles_in_frame (obs : list Obstacle) (b : Border) (mt : Q)
    (prev : option (list nat)) : result (list Obstacle * (list nat * bool)) :=
  '(obs', moving_obstacles, obs_change) <- moving_loop b mt obs 0 false ;;
  let obs_change :=
    match prev with
    | Some _moving_obs =>
        if negb (Nat.eqb (length _moving_obs) (length moving_obstacles)) then true
        else obs_change
    | None => obs_change
    end in
  Ok (obs', (moving_obstacles, obs_change)).

(** ** Distances and shifts *)

(** [distance_to_border(point, frame)], lines 1375-1407. *)
Definition distance_to_border (p : point) (b : Border) : Q * Q :=
  let '(x2, y2, x3, y3) := limits b in
  let v1 := (x2, y2) in
  let v2 := (x2, y3) in
  let v3 := (x3, y3) in
  let v4 := (x3, y2) in
  let dist12 :=
    - Qabs ((snd v2 - snd v1) * fst p - (fst v2 - fst v1) * snd p
            + fst v2 * snd v1 - snd v2 * fst v1)
      / np_sqrt ((snd v2 - snd v1) ^ 2 + (fst v2 - fst v1) ^ 2) in
  let dist23 :=
    Qabs ((snd v3 - snd v2) * fst p - (fst v3 - fst v2) * snd p
          + fst v3 * snd v2 - snd v3 * fst v2)
    / np_sqrt ((snd v3 - snd v2) ^ 2 + (fst v3 - fst v2) ^ 2) in
  let dist34 :=
    Qabs ((snd v4 - snd v3) * fst p - (fst v4 - fst v3) * snd p
          + fst v4 * snd v3 - snd v4 * fst v3)
    / np_sqrt ((snd v4 - snd v3) ^ 2 + (fst v4 - fst v3) ^ 2) in
  let dist41 :=
    - Qabs ((snd v1 - snd v4) * fst p - (fst v1 - fst v4) * snd p
            + fst v1 * snd v4 - snd v1 * fst v4)
      / np_sqrt ((snd v1 - snd v4) ^ 2 + (fst v1 - fst v4) ^ 2) in
  (if Qabs dist12 <? Qabs dist34 then dist12 else dist34,
   if Qabs dist23 <? Qabs dist41 then dist23 else dist41).

(** [abs(d) <= self.veh_size]: the clearance test of the terminal
    waypoint, on one axis. *)
Definition too_close (veh_size d : Q) : bool := Qabs d <=? veh_size.

(** [any(abs(d) <= self.veh_size for d in dist_to_border)] *)
Definition any_too_close (veh_size : Q) (dist_to_border : Q * Q) : bool :=
  too_close veh_size (fst dist_to_border) || too_close veh_size (snd dist_to_border).

(** [length] of [shift_point_back]. *)
Definition segment_length (start end_ : point) : Q :=
  np_sqrt ((fst end_ - fst start) ^ 2 + (snd end_ - snd start) ^ 2).

(** [move_back] of [shift_point_back]: how far to go back over the
    connection to reach the perpendicular distance [distance]. *)
Definition move_back (start end_ : point) (distance : Q) : Q :=
  let angle := np_arctan2 (snd end_ - snd start) (fst end_ - fst start) in
  if (fst start =? fst end_) || (snd start =? snd end_) then distance
  else Qmax (Qabs (distance / np_cos angle)) (Qabs (distance / np_sin angle)).

(** [shift_point_back(start, end, percentage, distance)], lines 1341-1373.
    With both [percentage] and [distance] zero [new_length] is never
    assigned. *)
Definition shift_point_back (start end_ : point) (percentage distance : Q) : result point :=
  let length := segment_length start end_ in
  let angle := np_arctan2 (snd end_ - snd start) (fst end_ - fst start) in
  new_length <-
    (if negb (percentage =? 0) then Ok (length * (1 - percentage / 100))
     else if negb (distance =? 0) then
       let new_length := length - move_back start end_ distance in
       Ok (if new_length <? 0 then 0 else new_length)
     else Raise UnboundLocalError) ;;
  Ok (fst start + new_length * np_cos angle, snd start + new_length * np_sin angle).

(** ** The stop criterion *)

(** [stop_criterium(current_time, update_time)], lines 200-207.
    [local_stop] is what [self.local_problem.stop_criterium] answers.
    [None] is Python's [None]: the function falls off its end. *)
Definition stop_criterium (self : Problem) (local_stop : bool) : result (option bool) :=
  match endpoint_frame (frame self) with
  | None => Raise KeyError
  | Some endpoint =>
      if pt_eqb endpoint (goal_state self) then
        if local_stop then Ok (Some true) else Ok None
      else Ok (Some false)
  end.

(** Python's truth value of what [stop_criterium] returns. *)
Definition truthy (r : option bool) : bool :=
  match r with
  | Some true => true
  | _ => false
  end.

(** ** Validity of the active frame *)

(** [check_frame()], lines 510-553.  A frame type that is neither
    ['shift'] nor ['min_nobs'] falls off the end ([None]).  With
    [self.next_frame] set to [None], [point_in_frame] falls back on
    [self.frame]. *)
Definition check_frame (self : Problem) : result (option bool) :=
  match ftype (frame self) with
  | Shift =>
      let percentage := 80 in
      match endpoint_frame (frame self) with
      | None => Raise KeyError
      | Some endpoint =>
          if negb (pt_eqb endpoint (goal_state self)) then
            match waypoints (frame self) with
            | [] => Raise IndexError
            | first :: _ =>
                let init_dist := distance_between_points first endpoint in
                let curr_dist := distance_between_points (curr_state self) endpoint in
                if curr_dist <? init_dist * (1 - percentage / 100) then Ok (Some false)
                else Ok (Some true)
            end
          else Ok (Some true)
      end
  | MinNobs =>
      let percentage := 99 in
      if negb (point_in_frame (goal_state self) (border (frame self)) 0) then
        match waypoints (frame self), endpoint_frame (frame self) with
        | [], _ => Raise IndexError
        | _ :: _, None => Raise KeyError
        | first :: _, Some endpoint =>
            let init_dist := distance_between_points first endpoint in
            let curr_dist := distance_between_points (curr_state self) endpoint in
            if curr_dist <? init_dist * (1 - percentage / 100) then Ok (Some false)
            else
              match next_frame self with
              | None => Raise AttributeError
              | Some nf =>
                  let b := match nf with
                           | Some f => border f
                           | None => border (frame self)
                           end in
                  if point_in_frame (curr_state self) b (veh_size self) then Ok (Some false)
                  else Ok (Some true)
              end
        end
      else Ok (Some true)
  | OtherType => Ok None
  end.

(** ** The min-nobs builder *)

(** [update_frame_with_waypoint(frame, prev_point, point)], lines
    1086-1107: the new border and the stationary obstacles found in it. *)
Definition update_frame_with_waypoint (self : Problem) (b : Border) (prev_point p : point)
    : result (Border * list nat) :=
  let '(xmin, ymin, xmax, ymax) := limits b in
  let '(xmin_new, xmax_new) :=
    if fst prev_point <? fst p then (xmin, fst p + veh_size self * scale_factor)
    else if fst p <? fst prev_point then (fst p - veh_size self * scale_factor, xmax)
    else (xmin, xmax) in
  let '(ymin_new, ymax_new) :=
    if snd prev_point <? snd p then (ymin, snd p + veh_size self * scale_factor)
    else if snd p <? snd prev_point then (snd p - veh_size self * scale_factor, ymax)
    else (ymin, ymax) in
  let b' := make_border xmin_new ymin_new xmax_new ymax_new in
  stationary_obstacles <- get_stationary_obstacles_in_frame (environment self) b' ;;
  Ok (b', stationary_obstacles).

(** Lines 1008-1016: the position in the path of the waypoint closest to
    [start], the first one winning a tie; [dist] starts at the larger room
    dimension. *)
Fixpoint closest_loop (start : point) (path : list point) (idx : nat) (dist : Q) (index : nat)
    : nat :=
  match path with
  | [] => index
  | p :: rest =>
      let d := distance_between_points p start in
      if d <? dist then closest_loop start rest (S idx) d idx
      else closest_loop start rest (S idx) dist index
  end.

Definition closest_index (self : Problem) (start : point) : nat :=
  closest_loop start (global_path self) 0
    (Qmax (room_width (environment self)) (room_height (environment self))) 0.

(** [points_in_frame[-1]] when the list is not empty, [start] otherwise
    (lines 1046-1051). *)
Definition prev_point_of (start : point) (points_in_frame : list point) : point :=
  last points_in_frame start.

(** The loop of lines 1038-1066 over [self.global_path[index:]]: absorbs
    waypoints until an enlargement finds a stationary obstacle. *)
Fixpoint absorb_loop (self : Problem) (start : point) (pts : list point) (b : Border)
    (points_in_frame : list point) : result (Border * list point) :=
  match pts with
  | [] => Ok (b, points_in_frame)
  | p :: rest =>
      let '(xmin, ymin, xmax, ymax) := limits b in
      if negb (point_in_frame p b 0) then
        let prev_point := prev_point_of start points_in_frame in
        '(b', stationary_obstacles) <- update_frame_with_waypoint self b prev_point p ;;
        if nonempty stationary_obstacles then
          Ok (make_border xmin ymin xmax ymax, points_in_frame)
        else absorb_loop self start rest b' (points_in_frame ++ [p])
      else absorb_loop self start rest b (points_in_frame ++ [p])
  end.

(** What [get_min_nobs_frame] returns: the frame dictionary with the keys
    ['border'], ['waypoints'] and, on the fast path only,
    ['endpoint_frame']. *)
Definition get_min_nobs_frame (self : Problem) (start : point) : result Frame :=
  let xmin := fst start - veh_size self * scale_factor in
  let ymin := snd start - veh_size self * scale_factor in
  let xmax := fst start + veh_size self * scale_factor in
  let ymax := snd start + veh_size self * scale_factor in
  let b := make_border xmin ymin xmax ymax in
  match global_path self with
  | [] => Raise IndexError
  | first :: _ =>
      let index := closest_index self start in
      let p := last (global_path self) first in
      '(b', points_in_frame, endpoint) <-
        (if negb (point_in_frame p b 0) then
           let prev_point := start in
           '(b1, stationary_obstacles) <- update_frame_with_waypoint self b prev_point p ;;
           if nonempty stationary_obstacles then
             '(b2, pts) <- absorb_loop self start (skipn index (global_path self))
                             (make_border xmin ymin xmax ymax) [] ;;
             Ok (b2, pts, None)
           else Ok (b1, skipn index (global_path self), None)
         else Ok (b, skipn index (global_path self), Some p)) ;;
      if nonempty points_in_frame then
        Ok {| ftype := MinNobs;
              border := b';
              waypoints := points_in_frame;
              endpoint_frame := endpoint;
              stationary_obstacles := None;
              moving_obstacles := None |}
      else Raise RuntimeError
  end.

(** ** Scaling a frame up *)

(** The side of the border a loop of [scale_up_frame] moves. *)
Inductive Side : Type :=
  | XMax
  | XMin
  | YMax
  | YMin.

(** The border with side [s] of [(xmin, ymin, xmax, ymax)] put at [v]. *)
Definition border_with (s : Side) (lim : Q * Q * Q * Q) (v : Q) : Border :=
  let '(xmin, ymin, xmax, ymax) := lim in
  match s with
  | XMax => make_border xmin ymin v ymax
  | XMin => make_border v ymin xmax ymax
  | YMax => make_border xmin ymin xmax v
  | YMin => make_border xmin v xmax ymax
  end.

Definition side_value (s : Side) (lim : Q * Q * Q * Q) : Q :=
  let '(xmin, ymin, xmax, ymax) := lim in
  match s with
  | XMax => xmax
  | XMin => xmin
  | YMax => ymax
  | YMin => ymin
  end.

Definition with_side (s : Side) (lim : Q * Q * Q * Q) (v : Q) : Q * Q * Q * Q :=
  let '(xmin, ymin, xmax, ymax) := lim in
  match s with
  | XMax => (xmin, ymin, v, ymax)
  | XMin => (v, ymin, xmax, ymax)
  | YMax => (xmin, ymin, xmax, v)
  | YMin => (xmin, v, xmax, ymax)
  end.

(** The room's limit on side [s]. *)
Definition room_limit (env : Environment) (s : Side) : Q :=
  match s with
  | XMax => room_xmax env
  | XMin => room_xmin env
  | YMax => room_ymax env
  | YMin => room_ymin env
  end.

(** [xmax + 0.1], [xmin - 0.1], ... *)
Definition side_step (s : Side) (v : Q) : Q :=
  match s with
  | XMax | YMax => v + 0.1
  | XMin | YMin => v - 0.1
  end.

(** [xmax_new > limit], [xmin_new < limit], ... *)
Definition side_beyond (s : Side) (v_new limit : Q) : bool :=
  match s with
  | XMax | YMax => limit <? v_new
  | XMin | YMin => v_new <? limit
  end.

(** One [while True] loop of [scale_up_frame] (lines 1130-1143 and its
    three copies), on side [s]; the other three limits are those of [lim].
    Returns the committed value of the side and [scaled_frame['border']]
    as the loop leaves it. *)
Fixpoint enlarge_loop (fuel : nat) (env : Environment) (s : Side) (lim : Q * Q * Q * Q)
    (v : Q) : result (Q * Border) :=
  match fuel with
  | O => Raise OutOfFuel
  | S fuel' =>
      let v_new := side_step s v in
      let scaled := border_with s lim v_new in
      if side_beyond s v_new (room_limit env s) then Ok (room_limit env s, scaled)
      else
        found <- get_stationary_obstacles_in_frame env scaled ;;
        if negb (nonempty found) then enlarge_loop fuel' env s lim v_new
        else Ok (v, border_with s lim v)
  end.

(** How far side [s] at [v] is from the room's limit. *)
Definition side_gap (s : Side) (limit v : Q) : Q :=
  match s with
  | XMax | YMax => limit - v
  | XMin | YMin => v - limit
  end.

(** Enough iterations for [enlarge_loop] to leave by itself: the distance
    to the room's limit in steps of [0.1], and two more. *)
Definition enlarge_fuel (env : Environment) (s : Side) (v : Q) : nat :=
  S (S (Z.to_nat (Qfloor (side_gap s (room_limit env s) v * 10)))).

(** One direction of [scale_up_frame]: first the room's limit, then the
    loop. *)
Definition enlarge (env : Environment) (s : Side) (lim : Q * Q * Q * Q)
    : result (Q * Q * Q * Q * Border) :=
  let v_new := room_limit env s in
  let scaled := border_with s lim v_new in
  found <- get_stationary_obstacles_in_frame env scaled ;;
  if negb (nonempty found) then Ok (with_side s lim v_new, scaled)
  else
    '(v, scaled') <- enlarge_loop (enlarge_fuel env s (side_value s lim)) env s lim
                       (side_value s lim) ;;
    Ok (with_side s lim v, scaled').

(** [list.index]: the first position holding a point equal to [x]. *)
Fixpoint py_index (x : point) (l : list point) : result nat :=
  match l with
  | [] => Raise ValueError
  | y :: rest => if pt_eqb y x then Ok O else (i <- py_index x rest ;; Ok (S i))
  end.

(** [x in l] *)
Definition py_in (x : point) (l : list point) : bool := existsb (fun y => pt_eqb y x) l.

(** Lines 1205-1213: appends the path's points that lie in the scaled
    border, up to the first that does not. *)
Fixpoint rescan_loop (b : Border) (pts : list point) (wps : list point) : list point :=
  match pts with
  | [] => wps
  | p :: rest =>
      if point_in_frame p b 0 then
        rescan_loop b rest (if negb (py_in p wps) then wps ++ [p] else wps)
      else wps
  end.

(** [frame['waypoints'][-1]] *)
Definition last_waypoint (wps : list point) : result point :=
  match rev wps with
  | [] => Raise IndexError
  | p :: _ => Ok p
  end.

(** [scale_up_frame(frame)], lines 1109-1217: the border and the
    waypoints of the scaled frame. *)
Definition scale_up_frame (self : Problem) (f : Frame) : result (Border * list point) :=
  let env := environment self in
  '(lim1, _) <- enlarge env XMax (limits (border f)) ;;
  '(lim2, _) <- enlarge env XMin lim1 ;;
  '(lim3, _) <- enlarge env YMax lim2 ;;
  '(_, scaled) <- enlarge env YMin lim3 ;;
  lastp <- last_waypoint (waypoints f) ;;
  index <- py_index lastp (global_path self) ;;
  Ok (scaled, rescan_loop scaled (skipn index (global_path self)) (waypoints f)).

(** ** Reachability of the terminal waypoint *)

(** The loop [while True] of lines 420-425: walks back from the waypoint
    before the last one; [rev_before] is the waypoint list reversed,
    without its head.  Ends with an [IndexError] when every waypoint is too
    close. *)
Fixpoint far_enough_loop (veh : Q) (b : Border) (rev_before : list point) (count : nat)
    : result (nat * point) :=
  match rev_before with
  | [] => Raise IndexError
  | p :: rest =>
      if any_too_close veh (distance_to_border p b) then far_enough_loop veh b rest (S count)
      else Ok (count, p)
  end.

(** Lines 483-485: [count] times [pop()], then [append(new_waypoint)]. *)
Definition replace_tail (wps : list point) (count : nat) (new_waypoint : point) : list point :=
  firstn (length wps - count) wps ++ [new_waypoint].

(** The new waypoint of [create_frame], method 2 (lines 432-481), from the
    line [(x1, y1)]-[(x2, y2)] and the distances of [(x2, y2)] to the
    border. *)
Definition new_waypoint_create (veh : Q) (b : Border) (p1 p2 : point) : option point :=
  let '(xmin, ymin, xmax, ymax) := limits b in
  let dist_to_border := distance_to_border p2 b in
  let '(x1, y1) := p1 in
  let '(x2, y2) := p2 in
  let in_x :=
    if too_close veh (fst dist_to_border) then
      let x3 := if fst dist_to_border <=? 0 then xmin else xmax in
      let y3 := if y2 =? y1 then y1 else (x3 - x1) * ((x2 - x1) / (y2 - y1)) + y1 in
      let angle := np_arctan2 (fst dist_to_border) (y3 - y2) in
      let l2 := (veh * scale_factor) / np_tan angle in
      let new1 := if y2 <=? y3 then y3 - l2 else y3 + l2 in
      let new0 := (new1 - y1) * ((y2 - y1) / (x2 - x1)) + x1 in
      Some (new0, new1)
    else None in
  if too_close veh (snd dist_to_border) then
    let y3 := if snd dist_to_border <=? 0 then ymin else ymax in
    let x3 := if x2 =? x1 then x1 else (y3 - y1) * ((y2 - y1) / (x2 - x1)) + x1 in
    let angle := np_arctan2 (snd dist_to_border) (y3 - y2) in
    let l2 := (veh * scale_factor) / np_tan angle in
    let new0 := if x2 <=? x3 then x3 - l2 else x3 + l2 in
    let new1 := (new0 - x1) * ((x2 - x1) / (y2 - y1)) + y1 in
    Some (new0, new1)
  else in_x.

(** The new waypoint of [create_next_frame], method 2 (lines 936-963). *)
Definition new_waypoint_next (veh : Q) (b : Border) (p1 p2 : point) : option point :=
  let '(xmin, ymin, xmax, ymax) := limits b in
  let dist_to_border := distance_to_border p2 b in
  let desired_distance := veh * scale_factor in
  let '(x1, y1) := p1 in
  let '(x2, y2) := p2 in
  let in_x :=
    if too_close veh (fst dist_to_border) then
      let new0 := if fst dist_to_border <=? 0 then xmin + desired_distance
                  else xmax - desired_distance in
      let new1 := if y1 =? y2 then y1 else (new0 - x1) * ((y2 - y1) / (x2 - x1)) + y1 in
      Some (new0, new1)
    else None in
  if too_close veh (snd dist_to_border) then
    let new1 := if snd dist_to_border <=? 0 then ymin + desired_distance
                else ymax - desired_distance in
    let new0 := if x1 =? x2 then x1 else (new1 - y1) * ((x2 - x1) / (y2 - y1)) + x1 in
    Some (new0, new1)
  else in_x.

(** Method 2, "move waypoint, keep frame borders": the waypoint list after
    the correction; [new_waypoint] is one of the two functions above. *)
Definition move_waypoint (new_waypoint : Q -> Border -> point -> point -> option point)
    (veh : Q) (b : Border) (wps : list point) : result (list point) :=
  lastp <- last_waypoint wps ;;
  if any_too_close veh (distance_to_border lastp b) then
    '(count, far) <- far_enough_loop veh b (tl (rev wps)) 1 ;;
    match new_waypoint veh b far lastp with
    | Some new_wp => Ok (replace_tail wps count new_wp)
    | None => Raise UnboundLocalError
    end
  else Ok wps.

(** [create_next_frame(frame)], lines 875-986. *)
Definition create_next_frame (self : Problem) (f : Frame) : result (option Frame) :=
  match endpoint_frame f with
  | None => Raise KeyError
  | Some endpoint =>
      if negb (pt_eqb endpoint (goal_state self)) then
        next <- get_min_nobs_frame self endpoint ;;
        '(b, wps) <- scale_up_frame self next ;;
        wps' <- move_waypoint new_waypoint_next (veh_size self) b wps ;;
        stationary <- get_stationary_obstacles_in_frame (environment self) b ;;
        lastp <- last_waypoint wps' ;;
        Ok (Some {| ftype := MinNobs;
                    border := b;
                    waypoints := wps';
                    endpoint_frame := Some lastp;
                    stationary_obstacles := Some stationary;
                    moving_obstacles := None |})
      else Ok None
  end.

(** The min-nobs branch of [create_frame], lines 375-506: the new
    [self.frame] and [self.next_frame]. *)
Definition create_frame_min_nobs (self : Problem) : result (Frame * option Frame) :=
  f0 <- get_min_nobs_frame self (curr_state self) ;;
  '(b, wps) <- scale_up_frame self f0 ;;
  wps' <- move_waypoint new_waypoint_create (veh_size self) b wps ;;
  stationary <- get_stationary_obstacles_in_frame (environment self) b ;;
  lastp <- last_waypoint wps' ;;
  let f := {| ftype := MinNobs;
              border := b;
              waypoints := wps';
              endpoint_frame := Some lastp;
              stationary_obstacles := Some stationary;
              moving_obstacles := None |} in
  next <- create_next_frame self f ;;
  Ok (f, next).

(** ** The shift builder *)

(** Modelled from the spec: [environment.get_canvas_limits()] of
    [environment.environment] is missing; the spec has the shifted frame
    "clamped so the frame does not move beyond the environment's outer
    bounds", which are the room's limits.  The result is
    [[[xmin, xmax], [ymin, ymax]]]. *)
Definition environment_limits (env : Environment) : (Q * Q) * (Q * Q) :=
  ((room_xmin env, room_xmax env), (room_ymin env, room_ymax env)).

(** [move_frame(delta_x, delta_y, move_limit)], lines 1219-1266. *)
Definition move_frame (self : Problem) (delta_x delta_y move_limit : Q) : Q * Q * Q * Q :=
  let half := frame_size self * 0.5 in
  let '(newx_lower, newx_upper) :=
    if half <? Qabs delta_x then
      let move := Qmin move_limit (Qabs delta_x - half + veh_size self * scale_factor) in
      if 0 <? delta_x then (half - move, half + move) else (half + move, half - move)
    else (half, half) in
  let '(newy_lower, newy_upper) :=
    if half <? Qabs delta_y then
      let move := Qmin move_limit (Qabs delta_y - half + veh_size self * scale_factor) in
      if 0 <? delta_y then (half - move, half + move) else (half + move, half - move)
    else (half, half) in
  let newx_min := fst (curr_state self) - newx_lower in
  let newy_min := snd (curr_state self) - newy_lower in
  let newx_max := fst (curr_state self) + newx_upper in
  let newy_max := snd (curr_state self) + newy_upper in
  let '((exmin, exmax), (eymin, eymax)) := environment_limits (environment self) in
  let newx_min := if newx_min <? exmin then exmin else newx_min in
  let newx_max := if exmax <? newx_max then exmax else newx_max in
  let newy_min := if newy_min <? eymin then eymin else newy_min in
  let newy_max := if eymax <? newy_max then eymax else newy_max in
  (newx_min, newy_min, newx_max, newy_max).

(** [find_intersection_line_frame(line)], lines 1298-1339. *)
Definition find_intersection_line_frame (b : Border) (l : line) : result point :=
  let '(x3, y3, x4, y4) := limits b in
  let top_side := ((x3, y4), (x4, y4)) in
  let right_side := ((x4, y4), (x4, y3)) in
  let bottom_side := ((x4, y3), (x3, y3)) in
  let left_side := ((x3, y3), (x3, y4)) in
  if intersect_line_segments l top_side then Ok (intersect_lines l top_side)
  else if intersect_line_segments l right_side then Ok (intersect_lines l right_side)
  else if intersect_line_segments l bottom_side then Ok (intersect_lines l bottom_side)
  else if intersect_line_segments l left_side then Ok (intersect_lines l left_side)
  else Raise ValueError.

(** What the loop of lines 292-309 leaves behind: [waypoint], [endpoint],
    [points_in_frame], and [delta_x], [delta_y] once assigned. *)
Record ShiftScan : Type := mkShiftScan {
  scan_waypoint : option point;
  scan_endpoint : option point;
  scan_points : list point;
  scan_delta : option (Q * Q)
}.

(** The loop of lines 292-309 over the rest [pts] of the path; [goal] is
    [self.global_path[-1]]. *)
Fixpoint shift_scan_loop (self : Problem) (b : Border) (move_limit : Q) (goal : point)
    (pts : list point) (st : ShiftScan) : ShiftScan :=
  match pts with
  | [] => st
  | p :: rest =>
      if negb (point_in_frame p b 0) then
        let delta_x := fst p - fst (curr_state self) in
        let delta_y := snd p - snd (curr_state self) in
        if (move_limit + frame_size self * 0.5 <? Qabs delta_x)
           || (move_limit + frame_size self * 0.5 <? Qabs delta_y) then
          {| scan_waypoint := Some p;
             scan_endpoint := scan_endpoint st;
             scan_points := scan_points st;
             scan_delta := Some (delta_x, delta_y) |}
        else if pt_eqb p goal then
          shift_scan_loop self b move_limit goal rest
            {| scan_waypoint := None;
               scan_endpoint := Some p;
               scan_points := scan_points st;
               scan_delta := Some (delta_x, delta_y) |}
        else
          shift_scan_loop self b move_limit goal rest
            {| scan_waypoint := None;
               scan_endpoint := scan_endpoint st;
               scan_points := scan_points st ++ [p];
               scan_delta := Some (delta_x, delta_y) |}
      else
        shift_scan_loop self b move_limit goal rest
          {| scan_waypoint := None;
             scan_endpoint := scan_endpoint st;
             scan_points := scan_points st ++ [p];
             scan_delta := scan_delta st |}
  end.

(** Lines 334-352: the border pushed out on the axes where [endpoint] is
    too close to it. *)
Definition push_border (veh : Q) (lim : Q * Q * Q * Q) (b : Border) (endpoint : point)
    : Border :=
  let '(xmin, ymin, xmax, ymax) := lim in
  let dist_to_border := distance_to_border endpoint b in
  let '(xmin, xmax, b) :=
    if too_close veh (fst dist_to_border) then
      let move_distance := (veh - Qabs (fst dist_to_border)) * scale_factor in
      let '(xmin, xmax) :=
        if fst dist_to_border <=? 0 then (xmin - move_distance, xmax)
        else (xmin, xmax + move_distance) in
      (xmin, xmax, make_border xmin ymin xmax ymax)
    else (xmin, xmax, b) in
  if too_close veh (snd dist_to_border) then
    let move_distance := (veh - Qabs (snd dist_to_border)) * scale_factor in
    let '(ymin, ymax) :=
      if snd dist_to_border <=? 0 then (ymin - move_distance, ymax)
      else (ymin, ymax + move_distance) in
    make_border xmin ymin xmax ymax
  else b.

(** The shift branch of [create_frame], lines 273-372: the new
    [self.frame]. *)
Definition create_frame_shift (self : Problem) : result Frame :=
  let xmin := fst (curr_state self) - frame_size self * 0.5 in
  let ymin := snd (curr_state self) - frame_size self * 0.5 in
  let xmax := fst (curr_state self) + frame_size self * 0.5 in
  let ymax := snd (curr_state self) + frame_size self * 0.5 in
  let b := make_border xmin ymin xmax ymax in
  let move_limit := frame_size self * 0.25 in
  let goal_idx := last (map Some (global_path self)) None in
  let scan :=
    match goal_idx with
    | Some goal =>
        shift_scan_loop self b move_limit goal (global_path self)
          {| scan_waypoint := None; scan_endpoint := None;
             scan_points := []; scan_delta := None |}
    | None =>
        {| scan_waypoint := None; scan_endpoint := None;
           scan_points := []; scan_delta := None |}
    end in
  '(lim, b, endpoint) <-
    match scan_waypoint scan, scan_endpoint scan, scan_delta scan with
    | Some waypoint, _, Some (delta_x, delta_y) =>
        let lim := move_frame self delta_x delta_y move_limit in
        let '(xmin, ymin, xmax, ymax) := lim in
        let b := make_border xmin ymin xmax ymax in
        lastp <- last_waypoint (scan_points scan) ;;
        intersection_point <- find_intersection_line_frame b (lastp, waypoint) ;;
        endpoint <- shift_point_back lastp intersection_point 0 (veh_size self * scale_factor) ;;
        Ok (lim, b, endpoint)
    | None, Some endpoint, Some (delta_x, delta_y) =>
        let lim := move_frame self delta_x delta_y move_limit in
        let '(xmin, ymin, xmax, ymax) := lim in
        Ok (lim, make_border xmin ymin xmax ymax, endpoint)
    | None, None, _ =>
        match goal_idx with
        | Some goal => Ok ((xmin, ymin, xmax, ymax), b, goal)
        | None => Raise IndexError
        end
    | _, _, None => Raise UnboundLocalError
    end ;;
  let b := push_border (veh_size self) lim b endpoint in
  stationary <- get_stationary_obstacles_in_frame (environment self) b ;;
  match scan_points scan with
  | [] => Raise IndexError
  | _ :: _ =>
      lastp <- last_waypoint (scan_points scan) ;;
      let points_in_frame :=
        if negb (pt_eqb endpoint lastp) then scan_points scan ++ [endpoint]
        else scan_points scan in
      Ok {| ftype := Shift;
            border := b;
            waypoints := points_in_frame;
            endpoint_frame := Some endpoint;
            stationary_obstacles := Some stationary;
            moving_obstacles := None |}
  end.

(** [create_frame()]: the problem with its new frame; [self.next_frame]
    is assigned by the min-nobs branch only. *)
Definition create_frame (self : Problem) : result Problem :=
  match ftype (frame self) with
  | Shift =>
      f <- create_frame_shift self ;;
      Ok (set_frames self f (next_frame self))
  | MinNobs =>
      '(f, nf) <- create_frame_min_nobs self ;;
      Ok (set_frames self f (Some nf))
  | OtherType => Raise ValueError
  end.

(** ** The initial guess *)

(** What [get_init_guess] reads of [self.vehicles[0]]: whether it is
    [Holonomic], its [vmax] when it has that attribute, and [vxmax] and
    [vymax]. *)
Record Vehicle : Type := mkVehicle {
  holonomic : bool;
  vmax : option Q;
  vxmax : Q;
  vymax : Q
}.

(** Line 753: [waypoints[0] = [self.curr_state[0], self.curr_state[1]]];
    [waypoints] is the frame's own list. *)
Definition start_at_state (self : Problem) (wps : list point) : result (list point) :=
  match wps with
  | [] => Raise IndexError
  | _ :: rest => Ok (curr_state self :: rest)
  end.

(** The loop of lines 761-763, from the sums [l] so far. *)
Fixpoint total_length (wps : list point) (l : Q * Q) : Q * Q :=
  match wps with
  | [] => l
  | p :: rest =>
      match rest with
      | [] => l
      | q :: _ => total_length rest (fst l + (fst q - fst p), snd l + (snd q - snd p))
      end
  end.

(** Line 768. *)
Definition max_vel (veh : Vehicle) : Q :=
  match vmax veh with
  | Some v => v
  | None => (vxmax veh + vymax veh) * 0.5
  end.

(** The loop of lines 789-800 over the waypoints, appending to [time_x]
    and [time_y]; [time_x[-1]] is the last element. *)
Fixpoint time_loop (wps : list point) (l_x l_y : Q) (time_x time_y : list Q)
    : list Q * list Q :=
  match wps with
  | [] => (time_x, time_y)
  | p :: rest =>
      match rest with
      | [] => (time_x, time_y)
      | q :: _ =>
          let '(tx, ty) :=
            if (l_x =? 0) && negb (l_y =? 0) then
              (0, last time_y 0 + (snd q - snd p) / l_y)
            else if negb (l_x =? 0) && (l_y =? 0) then
              (last time_x 0 + (fst q - fst p) / l_x, 0)
            else if (l_x =? 0) && (l_y =? 0) then (0, 0)
            else (last time_x 0 + (fst q - fst p) / l_x,
                  last time_y 0 + (snd q - snd p) / l_y) in
          time_loop rest l_x l_y (time_x ++ [tx]) (time_y ++ [ty])
      end
  end.

(** Lines 804-809: [if (1 - t < 1e-5): time[idx] = 1]. *)
Definition make_exact (times : list Q) : list Q :=
  map (fun t => if 1 - t <? (1 # 100000) then 1 else t) times.

(** [all(t == 0 for t in times)] *)
Definition all_zero (times : list Q) : bool := forallb (fun t => t =? 0) times.

(** Lines 784-823, the [Holonomic] branch up to the interpolation: the
    abscissae [time_x] and [time_y] handed to [interp1d]. *)
Definition time_vectors (wps : list point) (l_x l_y : Q) : result (list Q * list Q) :=
  let '(time_x, time_y) := time_loop wps l_x l_y [0] [0] in
  let time_x := make_exact time_x in
  let time_y := make_exact time_y in
  if all_zero time_x && all_zero time_y then Raise RuntimeError
  else if all_zero time_x then Ok (time_y, time_y)
  else if all_zero time_y then Ok (time_x, time_x)
  else Ok (time_x, time_y).

(** What [get_init_guess] leaves behind, apart from the spline
    coefficients: the frame's waypoints (their first one rewritten), the
    motion time, the abscissae of the interpolation ([Holonomic] only), and
    the terminal conditions set on the vehicle, a point and for the other
    vehicles an orientation when the point is not the goal. *)
Record InitGuess : Type := mkInitGuess {
  guess_waypoints : list point;
  guess_motion_time : Q;
  guess_times : option (list Q * list Q);
  guess_terminal : point * option angle
}.

(** [get_init_guess()], lines 742-863.  The interpolation with [interp1d]
    and the knots of the vehicle's splines are scipy's and the vehicle's;
    of the returned [splines] only the abscissae are kept here.  With
    [max_vel] zero numpy's quotient is [inf] or [nan]; here it is 0. *)
Definition get_init_guess (self : Problem) (veh : Vehicle) : result InitGuess :=
  waypoints <- start_at_state self (waypoints (frame self)) ;;
  let '(l_x, l_y) := total_length waypoints (0, 0) in
  let length_to_travel := np_sqrt (l_x ^ 2 + l_y ^ 2) in
  let motion_time := length_to_travel / (max_vel veh * 0.5) in
  lastp <- last_waypoint waypoints ;;
  if negb (holonomic veh) then
    terminal <-
      (if pt_eqb lastp (goal_state self) then Ok (goal_state self, None)
       else
         match tl (rev waypoints) with
         | [] => Raise IndexError
         | (x1, y1) :: _ =>
             let '(x2, y2) := lastp in
             Ok (lastp, Some (np_arctan2 (y2 - y1) (x2 - x1)))
         end) ;;
    Ok {| guess_waypoints := waypoints;
          guess_motion_time := motion_time;
          guess_times := None;
          guess_terminal := terminal |}
  else
    times <- time_vectors waypoints l_x l_y ;;
    Ok {| guess_waypoints := waypoints;
          guess_motion_time := motion_time;
          guess_times := Some times;
          guess_terminal := (lastp, None) |}.


(** ** Updating the frame *)

(** [update_frame(next_frame)], lines 555-589.  [planned] is what
    [self.global_planner.get_path(start, goal)] returns, [moving_obs] the
    attribute [self._moving_obs] when it exists, and [next_frame_arg] the
    argument ([None] is Python's [None]).  The result is the problem after
    the call and the new [self._moving_obs]; of [self.init_guess] the
    abscissae are not kept. *)
Definition update_frame (self : Problem) (veh : Vehicle) (planned : list point)
    (moving_obs : option (list nat)) (next_frame_arg : option Frame)
    : result (Problem * list nat) :=
  let self :=
    {| curr_state := curr_state self;
       goal_state := goal_state self;
       veh_size := veh_size self;
       frame_size := frame_size self;
       global_path := planned ++ [goal_state self];
       environment := environment self;
       motion_time := motion_time self;
       frame := frame self;
       next_frame := next_frame self |} in
  self <-
    match next_frame_arg with
    | Some next =>
        new_frame <- create_next_frame self next ;;
        match next_frame self with
        | Some (Some f) => Ok (set_frames self f (Some new_frame))
        | _ => Raise AttributeError
        end
    | None => create_frame self
    end ;;
  guess <- get_init_guess self veh ;;
  '(obs, (moving, _)) <-
    get_moving_obstacles_in_frame (obstacles (environment self)) (border (frame self))
      (guess_motion_time guess) moving_obs ;;
  Ok ({| curr_state := curr_state self;
         goal_state := goal_state self;
         veh_size := veh_size self;
         frame_size := frame_size self;
         global_path := global_path self;
         environment := {| room_width := room_width (environment self);
                           room_height := room_height (environment self);
                           room_position := room_position (environment self);
                           obstacles := obs |};
         motion_time := guess_motion_time guess;
         frame := {| ftype := ftype (frame self);
                     border := border (frame self);
                     waypoints := guess_waypoints guess;
                     endpoint_frame := endpoint_frame (frame self);
                     stationary_obstacles := stationary_obstacles (frame self);
                     moving_obstacles := Some moving |};
         next_frame := next_frame self |},
      moving).

(** What [generate_problem] hands to [Point2point]: the room of the local
    environment, the obstacles added to it, and whether
    [no_term_con_der] is set to [False]. *)
Record LocalProblem : Type := mkLocalProblem {
  local_room_shape : Shape;
  local_room_position : Q * Q * Q;
  local_obstacles : list nat;
  final_velocity_constraint : bool
}.

(** [generate_problem()], lines 1409-1428, up to the construction of the
    [Point2point] problem. *)
Definition generate_problem (self : Problem) : result LocalProblem :=
  match stationary_obstacles (frame self), moving_obstacles (frame self),
        endpoint_frame (frame self) with
  | Some stationary, Some moving, Some endpoint =>
      Ok {| local_room_shape := border_shape (border (frame self));
            local_room_position := border_position (border (frame self));
            local_obstacles := stationary ++ moving;
            final_velocity_constraint := pt_eqb endpoint (goal_state self) |}
  | _, _, _ => Raise KeyError
  end.


(** ** Properties that hold for every instance of the imports *)

(** C10.  [stop_criterium] never signals arrival before the terminal
    frame: it returns [True] exactly when the active frame's endpoint
    equals the goal state and the local problem's stop criterion holds, and
    it returns [False] whenever the endpoint differs from the goal. *)
Theorem stop_criterium_only_in_terminal_frame
    (self : Problem) (local_stop : bool) (endpoint : point) :
  endpoint_frame (frame self) = Some endpoint ->
  (stop_criterium self local_stop = Ok (Some true)
     <-> pt_eq endpoint (goal_state self) /\ local_stop = true)
  /\ (~ pt_eq endpoint (goal_state self) -> stop_criterium self local_stop = Ok (Some false))
  /\ (exists r, stop_criterium self local_stop = Ok r
        /\ (truthy r = true -> pt_eq endpoint (goal_state self) /\ local_stop = true)).
Proof.
  intro He. unfold stop_criterium. rewrite He.
  destruct (pt_eqb endpoint (goal_state self)) eqn:E.
  - apply pt_eqb_true in E.
    destruct local_stop.
    + split; [tauto|]. split; [tauto|].
      exists (Some true). tauto.
    + split; [split; [discriminate | intros [_ H']; discriminate]|].
      split; [tauto|].
      exists None. split; [reflexivity | discriminate].
  - assert (Hn : ~ pt_eq endpoint (goal_state self)).
    { intro Hp. apply pt_eqb_true in Hp. congruence. }
    split; [split; [discriminate | tauto]|].
    split; [reflexivity|].
    exists (Some false). split; [reflexivity | discriminate].
Qed.

(** C9.  [shift_point_back(start, end, distance=d)] with [d > 0]: when
    the distance to move back is at least the length of the segment, the
    new length is clamped to zero and the function returns [start],
    without raising. *)
Theorem shift_point_back_clamps_to_start (start end_ : point) (d : Q) :
  0 < d ->
  segment_length start end_ <= move_back start end_ d ->
  exists p, shift_point_back start end_ 0 d = Ok p /\ pt_eq p start.
Proof.
  intros Hd Hlen. unfold shift_point_back.
  assert (E0 : (0 =? 0) = true) by reflexivity.
  rewrite E0. simpl negb.
  assert (Ed : (d =? 0) = false).
  { apply Qeqb_false. intro Hq. rewrite Hq in Hd. apply (Qlt_irrefl 0), Hd. }
  rewrite Ed. simpl.
  destruct (segment_length start end_ - move_back start end_ d <? 0) eqn:E.
  - eexists. split; [reflexivity|]. split; simpl; ring.
  - apply Qltb_false in E.
    assert (Hz : segment_length start end_ - move_back start end_ d == 0) by lra.
    eexists. split; [reflexivity|]. split; simpl; rewrite Hz; ring.
Qed.

(** ** The moving-obstacle query *)

(** Whether a checkpoint of the obstacle is in the border at one of the
    sampled times of its constant-velocity motion: the obstacle's swept
    checkpoints meet the frame. *)
Fixpoint first_hit (b : Border) (mt : Q) (o : Obstacle) (chcks : list point) : result bool :=
  match chcks with
  | [] => Ok false
  | chck :: rest =>
      hit <- point_in_frame_moving (vertex_of o chck) (signals_velocity o) b mt ;;
      if hit then Ok true else first_hit b mt o rest
  end.

Definition swept_into_frame (b : Border) (mt : Q) (o : Obstacle) : result bool :=
  first_hit b mt o (obs_chck (obs_shape o)).

(** The positions of the obstacles whose current velocity is not zero,
    counted from [idx]. *)
Fixpoint moving_positions (obs : list Obstacle) (idx : nat) : list nat :=
  match obs with
  | [] => []
  | o :: rest =>
      if is_moving o then idx :: moving_positions rest (S idx)
      else moving_positions rest (S idx)
  end.

Lemma first_hit_set_avoid b mt o a chcks :
  first_hit b mt (set_avoid o a) chcks = first_hit b mt o chcks.
Proof.
  induction chcks as [|c rest IH]; simpl; [reflexivity|].
  unfold vertex_of at 1. simpl. fold (vertex_of o c).
  rewrite IH. reflexivity.
Qed.

(** The checkpoint loop in closed form: a hit sets the flag and makes
    [obs_change] say whether the flag was off before; without a hit a
    non-empty loop clears the flag and raises [obs_change] if it was on. *)
Lemma chck_loop_first_hit b mt o avoid_old chcks a c :
  chck_loop b mt o avoid_old chcks a c =
  (h <- first_hit b mt o chcks ;;
   Ok (if h then (true, negb avoid_old)
       else if nonempty chcks then (false, a || c) else (a, c))).
Proof.
  revert a c. induction chcks as [|chck rest IH]; intros a c; simpl; [reflexivity|].
  destruct (point_in_frame_moving (vertex_of o chck) (signals_velocity o) b mt)
    as [hit|e]; simpl; [|reflexivity].
  destruct hit; simpl.
  - destruct avoid_old; reflexivity.
  - destruct a; rewrite IH; destruct (first_hit b mt o rest) as [h|e]; simpl;
      try reflexivity; destruct h; try reflexivity; destruct rest; simpl;
      try reflexivity; destruct c; reflexivity.
Qed.

Lemma moving_loop_positions b mt obs : forall idx c obs' moving c',
  moving_loop b mt obs idx c = Ok (obs', moving, c') ->
  moving = moving_positions obs idx /\ length obs' = length obs.
Proof.
  induction obs as [|o rest IH]; intros idx c obs' moving c' Hrun; simpl in *.
  - inversion Hrun; subst. auto.
  - destruct (is_moving o).
    + apply bind_Ok in Hrun. destruct Hrun as [[a c1] [_ Hrun]].
      apply bind_Ok in Hrun. destruct Hrun as [[[rest' mv] c2] [Hrest Hrun]].
      inversion Hrun; subst. apply IH in Hrest. destruct Hrest as [-> Hl].
      simpl. auto.
    + apply bind_Ok in Hrun. destruct Hrun as [[[rest' mv] c2] [Hrest Hrun]].
      inversion Hrun; subst. apply IH in Hrest. destruct Hrest as [-> Hl].
      simpl. auto.
Qed.

(** A second pass over the obstacles as the first pass left them changes
    nothing and leaves [obs_change] off. *)
Lemma moving_loop_again b mt obs : forall idx c obs' moving c',
  moving_loop b mt obs idx c = Ok (obs', moving, c') ->
  moving_loop b mt obs' idx false = Ok (obs', moving, false).
Proof.
  induction obs as [|o rest IH]; intros idx c obs' moving c' Hrun; simpl in *.
  - inversion Hrun; subst. reflexivity.
  - destruct (is_moving o) eqn:Em.
    + apply bind_Ok in Hrun. destruct Hrun as [[a c1] [Hchck Hrun]].
      apply bind_Ok in Hrun. destruct Hrun as [[[rest' mv] c2] [Hrest Hrun]].
      inversion Hrun; subst. apply IH in Hrest.
      simpl. unfold is_moving in *. simpl. rewrite Em.
      rewrite chck_loop_first_hit in Hchck |- *.
      rewrite first_hit_set_avoid.
      destruct (first_hit b mt o (obs_chck (obs_shape o))) as [h|e]; simpl in *;
        [|discriminate].
      assert (Hsame : (if h then (true, negb a)
               else if nonempty (obs_chck (obs_shape o)) then (false, a || false)
                    else (a, false)) = (a, false)).
      { destruct h; [inversion Hchck; reflexivity|].
        destruct (nonempty (obs_chck (obs_shape o))); inversion Hchck; reflexivity. }
      rewrite Hsame. rewrite Hrest. simpl.
      destruct a; reflexivity.
    + apply bind_Ok in Hrun. destruct Hrun as [[[rest' mv] c2] [Hrest Hrun]].
      inversion Hrun; subst. apply IH in Hrest.
      simpl. rewrite Em. rewrite Hrest. reflexivity.
Qed.

(** C8.  Calling the moving-obstacle query again on the obstacles as the
    first call left them (positions, velocities, avoid flags), with the
    same border and motion time and with [self._moving_obs] as the first
    call set it, returns the same obstacles and [changed == False]. *)
Theorem moving_query_twice_unchanged
    (obs obs' : list Obstacle) (b : Border) (mt : Q) (prev : option (list nat))
    (moving : list nat) (changed : bool) :
  get_moving_obstacles_in_frame obs b mt prev = Ok (obs', (moving, changed)) ->
  get_moving_obstacles_in_frame obs' b mt (Some moving) = Ok (obs', (moving, false)).
Proof.
  unfold get_moving_obstacles_in_frame. intro Hrun.
  apply bind_Ok in Hrun. destruct Hrun as [[[o1 m1] c1] [Hloop Hrun]].
  inversion Hrun; subst.
  rewrite (moving_loop_again _ _ _ _ _ _ _ _ Hloop). simpl.
  rewrite Nat.eqb_refl. reflexivity.
Qed.

Lemma moving_positions_In obs : forall idx i,
  In i (moving_positions obs idx) <->
  exists o, (idx <= i)%nat /\ nth_error obs (i - idx) = Some o /\ is_moving o = true.
Proof.
  induction obs as [|o rest IH]; intros idx i; simpl.
  - split; [tauto|]. intros [o' [_ [Hn _]]]. destruct (i - idx)%nat; discriminate.
  - assert (Hrest : In i (moving_positions rest (S idx)) <->
              exists o', (S idx <= i)%nat /\ nth_error rest (i - S idx) = Some o'
                         /\ is_moving o' = true) by apply IH.
    destruct (is_moving o) eqn:Em; simpl; rewrite ?Hrest; split.
    + intros [<- | [o' [Hle [Hn Hm]]]].
      * exists o. rewrite Nat.sub_diag. simpl. auto.
      * exists o'. split; [lia|]. split; [|exact Hm].
        replace (i - idx)%nat with (S (i - S idx)) by lia. exact Hn.
    + intros [o' [Hle [Hn Hm]]].
      destruct (Nat.eq_dec idx i) as [->|Hne]; [left; reflexivity|right].
      exists o'. split; [lia|]. split; [|exact Hm].
      replace (i - idx)%nat with (S (i - S idx)) in Hn by lia. exact Hn.
    + intros [o' [Hle [Hn Hm]]].
      exists o'. split; [lia|]. split; [|exact Hm].
      replace (i - idx)%nat with (S (i - S idx)) by lia. exact Hn.
    + intros [o' [Hle [Hn Hm]]].
      destruct (Nat.eq_dec idx i) as [->|Hne].
      * rewrite Nat.sub_diag in Hn. simpl in Hn. inversion Hn; subst. congruence.
      * exists o'. split; [lia|]. split; [|exact Hm].
        replace (i - idx)%nat with (S (i - S idx)) in Hn by lia. exact Hn.
Qed.

(** After the loop, the avoid flag of a moving obstacle with checkpoints
    says whether its swept checkpoints met the frame. *)
Lemma moving_loop_flags b mt obs : forall idx c obs' moving c' i o,
  moving_loop b mt obs idx c = Ok (obs', moving, c') ->
  nth_error obs i = Some o ->
  is_moving o = true ->
  nonempty (obs_chck (obs_shape o)) = true ->
  exists o', nth_error obs' i = Some o' /\ swept_into_frame b mt o = Ok (avoid o').
Proof.
  induction obs as [|o1 rest IH]; intros idx c obs' moving c' i o Hrun Hn Hm Hc;
    simpl in *.
  - destruct i; discriminate.
  - destruct (is_moving o1) eqn:Em.
    + apply bind_Ok in Hrun. destruct Hrun as [[a c1] [Hchck Hrun]].
      apply bind_Ok in Hrun. destruct Hrun as [[[rest' mv] c2] [Hrest Hrun]].
      inversion Hrun; subst.
      destruct i as [|i]; simpl in *.
      * inversion Hn; subst. exists (set_avoid o a). split; [reflexivity|].
        rewrite chck_loop_first_hit in Hchck. unfold swept_into_frame.
        destruct (first_hit b mt o (obs_chck (obs_shape o))) as [h|e]; simpl in *;
          [|discriminate].
        rewrite Hc in Hchck. destruct h; inversion Hchck; reflexivity.
      * eapply IH; eauto.
    + apply bind_Ok in Hrun. destruct Hrun as [[[rest' mv] c2] [Hrest Hrun]].
      inversion Hrun; subst.
      destruct i as [|i]; simpl in *.
      * inversion Hn; subst. congruence.
      * eapply IH; eauto.
Qed.

(** C4, amended.  The list returned by the moving-obstacle query holds
    exactly the obstacles whose current velocity is not zero, whether or
    not their motion meets the frame; which of them matter is recorded in
    the avoid flag: after the call the flag of a moving obstacle (with at
    least one checkpoint) is on exactly when one of its checkpoints is in
    the border at a sampled time of its constant-velocity motion. *)
Theorem moving_query_returns_all_moving
    (obs obs' : list Obstacle) (b : Border) (mt : Q) (prev : option (list nat))
    (moving : list nat) (changed : bool) :
  get_moving_obstacles_in_frame obs b mt prev = Ok (obs', (moving, changed)) ->
  (forall i, In i moving <-> exists o, nth_error obs i = Some o /\ is_moving o = true)
  /\ (forall i o, nth_error obs i = Some o -> is_moving o = true ->
        nonempty (obs_chck (obs_shape o)) = true ->
        exists o', nth_error obs' i = Some o' /\ swept_into_frame b mt o = Ok (avoid o')).
Proof.
  unfold get_moving_obstacles_in_frame. intro Hrun.
  apply bind_Ok in Hrun. destruct Hrun as [[[o1 m1] c1] [Hloop Hrun]].
  inversion Hrun; subst. split.
  - intro i. destruct (moving_loop_positions _ _ _ _ _ _ _ _ Hloop) as [-> _].
    rewrite moving_positions_In. rewrite Nat.sub_0_r.
    split; intros [o [H1 H2]]; exists o; [tauto | split; [lia | tauto]].
  - intros i o Hn Hm Hc. eapply moving_loop_flags; eauto.
Qed.

(** ** The terminal waypoint stays inside the border *)

(** [p] lies within the limits [(xmin, ymin, xmax, ymax)], edges
    included. *)
Definition inside (p : point) (lim : Q * Q * Q * Q) : Prop :=
  let '(xmin, ymin, xmax, ymax) := lim in
  (xmin <= fst p /\ fst p <= xmax) /\ (ymin <= snd p /\ snd p <= ymax).

Lemma point_in_frame_inside p b :
  point_in_frame p b 0 = true <-> inside p (limits b).
Proof.
  unfold point_in_frame, inside.
  destruct (limits b) as [[[xmin ymin] xmax] ymax].
  rewrite !andb_true_iff, !Qleb_true.
  split; intros [[H1 H2] [H3 H4]]; repeat split; lra.
Qed.

Lemma inside_pt_eq p q lim : pt_eq p q -> inside p lim -> inside q lim.
Proof.
  unfold pt_eq, inside. destruct lim as [[[xmin ymin] xmax] ymax].
  intros [Hx Hy] [[H1 H2] [H3 H4]]. repeat split; lra.
Qed.

(** The enlargement of [update_frame_with_waypoint] takes the new point
    in, as long as the point it is compared with was in. *)
Lemma update_frame_takes_point_in (self : Problem) b prev p b' found :
  0 <= veh_size self ->
  inside prev (limits b) ->
  update_frame_with_waypoint self b prev p = Ok (b', found) ->
  inside p (limits b').
Proof.
  intros Hv Hin Hrun. unfold update_frame_with_waypoint in Hrun.
  unfold inside in Hin.
  destruct (limits b) as [[[xmin ymin] xmax] ymax].
  destruct Hin as [[Hx1 Hx2] [Hy1 Hy2]].
  assert (Hm : 0 <= veh_size self * scale_factor).
  { unfold scale_factor. lra. }
  destruct (fst prev <? fst p) eqn:Ex1; [|destruct (fst p <? fst prev) eqn:Ex2];
    (destruct (snd prev <? snd p) eqn:Ey1; [|destruct (snd p <? snd prev) eqn:Ey2]);
    apply bind_Ok in Hrun; destruct Hrun as [so [_ Hrun]]; inversion Hrun; subst;
    simpl; qbool; repeat split; lra.
Qed.

Lemma last_app_one {A : Type} (l : list A) (x d : A) : last (l ++ [x]) d = x.
Proof. apply last_last. Qed.

(** The absorbing loop keeps the last absorbed waypoint (or [start])
    inside the border it returns. *)
Lemma absorb_loop_last_inside (self : Problem) start pts :
  0 <= veh_size self ->
  forall b acc b' acc',
  inside (prev_point_of start acc) (limits b) ->
  absorb_loop self start pts b acc = Ok (b', acc') ->
  inside (prev_point_of start acc') (limits b').
Proof.
  intro Hv. induction pts as [|p rest IH]; intros b acc b' acc' Hin Hrun; simpl in Hrun.
  - inversion Hrun; subst. exact Hin.
  - destruct (limits b) as [[[xmin ymin] xmax] ymax] eqn:El.
    destruct (point_in_frame p b 0) eqn:Ep; simpl in Hrun.
    + apply (IH b (acc ++ [p])); [|exact Hrun].
      unfold prev_point_of. rewrite last_app_one.
      apply point_in_frame_inside in Ep. rewrite ?El in *. exact Ep.
    + apply bind_Ok in Hrun. destruct Hrun as [[b1 found] [Hupd Hrun]].
      destruct (nonempty found).
      * inversion Hrun; subst. simpl. rewrite ?El in *. exact Hin.
      * apply (IH b1 (acc ++ [p])); [|exact Hrun].
        unfold prev_point_of. rewrite last_app_one.
        eapply update_frame_takes_point_in; eauto.
        rewrite ?El in *. exact Hin.
Qed.

Lemma last_waypoint_last (wps : list point) (p d : point) :
  last_waypoint wps = Ok p -> last wps d = p /\ wps <> [].
Proof.
  unfold last_waypoint. destruct wps as [|w rest] using rev_ind; simpl.
  - discriminate.
  - rewrite rev_app_distr. simpl. intro Hq. inversion Hq; subst.
    split; [apply last_last | intro Hn; destruct rest; discriminate].
Qed.

Lemma last_waypoint_nonempty (wps : list point) (d : point) :
  nonempty wps = true -> last_waypoint wps = Ok (last wps d).
Proof.
  unfold last_waypoint. destruct wps as [|w rest] using rev_ind; simpl.
  - discriminate.
  - intros _. rewrite rev_app_distr. simpl. rewrite last_last. reflexivity.
Qed.

Lemma last_skipn {A : Type} (n : nat) (l : list A) (d : A) :
  skipn n l <> [] -> last (skipn n l) d = last l d.
Proof.
  revert l. induction n as [|n IH]; intros l Hne; simpl in *; [reflexivity|].
  destruct l as [|x rest]; [reflexivity|].
  rewrite IH by exact Hne.
  destruct rest as [|y rest']; [destruct n; simpl in Hne; congruence | reflexivity].
Qed.

Lemma last_default {A : Type} (l : list A) (d d' : A) : l <> [] -> last l d = last l d'.
Proof.
  induction l as [|x rest IH]; intro Hne; [congruence|].
  destruct rest as [|y rest']; [reflexivity|].
  simpl in *. apply IH. congruence.
Qed.

Lemma nonempty_not_nil {A : Type} (l : list A) : nonempty l = true <-> l <> [].
Proof. destruct l; simpl; split; congruence. Qed.

(** [get_min_nobs_frame] returns a frame whose last waypoint is inside
    its border. *)
Lemma get_min_nobs_frame_last_inside (self : Problem) (start : point) (f : Frame) :
  0 <= veh_size self ->
  get_min_nobs_frame self start = Ok f ->
  exists p, last_waypoint (waypoints f) = Ok p /\ inside p (limits (border f)).
Proof.
  intros Hv Hrun. unfold get_min_nobs_frame in Hrun.
  assert (Hm : 0 <= veh_size self * scale_factor).
  { unfold scale_factor. lra. }
  destruct (global_path self) as [|first path'] eqn:Epath; [discriminate|].
  rewrite <- Epath in Hrun.
  set (b0 := make_border (fst start - veh_size self * scale_factor)
               (snd start - veh_size self * scale_factor)
               (fst start + veh_size self * scale_factor)
               (snd start + veh_size self * scale_factor)) in *.
  assert (Hstart : inside start (limits b0)).
  { simpl. repeat split; lra. }
  apply bind_Ok in Hrun. destruct Hrun as [[[b' pts] e] [Hbuild Hrun]].
  destruct (nonempty pts) eqn:Ene; [|discriminate].
  inversion Hrun; subst; simpl. clear Hrun.
  exists (last pts start). split; [apply last_waypoint_nonempty, Ene|].
  destruct (point_in_frame (last (global_path self) first) b0 0) eqn:Egoal;
    simpl in Hbuild.
  - inversion Hbuild; subst.
    rewrite last_skipn by (apply nonempty_not_nil, Ene).
    apply point_in_frame_inside in Egoal.
    rewrite (last_default _ start first) by (rewrite Epath; discriminate).
    exact Egoal.
  - apply bind_Ok in Hbuild. destruct Hbuild as [[b1 found] [Hupd Hbuild]].
    destruct (nonempty found).
    + apply bind_Ok in Hbuild. destruct Hbuild as [[b2 pts2] [Habs Hbuild]].
      inversion Hbuild; subst.
      apply (absorb_loop_last_inside self start _ Hv b0 [] _ _ Hstart) in Habs.
      exact Habs.
    + inversion Hbuild; subst.
      rewrite last_skipn by (apply nonempty_not_nil, Ene).
      pose proof (update_frame_takes_point_in self _ _ _ _ _ Hv Hstart Hupd) as Hin.
      rewrite (last_default _ start first) by (rewrite Epath; discriminate).
      exact Hin.
Qed.

(** [p] does not pass the value [v] of side [s]. *)
Definition side_ok (s : Side) (p : point) (v : Q) : Prop :=
  match s with
  | XMax => fst p <= v
  | XMin => v <= fst p
  | YMax => snd p <= v
  | YMin => v <= snd p
  end.

(** [p] lies in the room, walls included. *)
Definition in_room (env : Environment) (p : point) : Prop :=
  (room_xmin env <= fst p /\ fst p <= room_xmax env)
  /\ (room_ymin env <= snd p /\ snd p <= room_ymax env).

Lemma limits_border_with s lim v : limits (border_with s lim v) = with_side s lim v.
Proof. destruct lim as [[[xmin ymin] xmax] ymax]. destruct s; reflexivity. Qed.

Lemma inside_with_side p s lim v :
  inside p lim -> side_ok s p v -> inside p (with_side s lim v).
Proof.
  destruct lim as [[[xmin ymin] xmax] ymax].
  intros [[H1 H2] [H3 H4]] Hs. destruct s; simpl in *; repeat split; assumption.
Qed.

Lemma inside_side_value p s lim : inside p lim -> side_ok s p (side_value s lim).
Proof.
  destruct lim as [[[xmin ymin] xmax] ymax].
  intros [[H1 H2] [H3 H4]]. destruct s; simpl; assumption.
Qed.

Lemma in_room_side_ok env p s : in_room env p -> side_ok s p (room_limit env s).
Proof.
  intros [[H1 H2] [H3 H4]]. destruct s; simpl; assumption.
Qed.

(** A loop of [scale_up_frame] never moves its side across a point that
    is in the room and was on the right side of it. *)
Lemma enlarge_loop_keeps env s lim p : forall fuel v v' scaled,
  side_ok s p v ->
  side_ok s p (room_limit env s) ->
  enlarge_loop fuel env s lim v = Ok (v', scaled) ->
  side_ok s p v' /\ exists v'', limits scaled = with_side s lim v'' /\ side_ok s p v''.
Proof.
  induction fuel as [|fuel IH]; intros v v' scaled Hv Hroom Hrun; simpl in Hrun;
    [discriminate|].
  destruct (side_beyond s (side_step s v) (room_limit env s)) eqn:Eb.
  - inversion Hrun; subst. split; [exact Hroom|].
    exists (side_step s v). split; [apply limits_border_with|].
    destruct s; simpl in *; qbool; lra.
  - apply bind_Ok in Hrun. destruct Hrun as [found [_ Hrun]].
    destruct (nonempty found); simpl in Hrun.
    + inversion Hrun; subst. split; [exact Hv|].
      exists v'. split; [apply limits_border_with | exact Hv].
    + apply (IH (side_step s v)); [|exact Hroom|exact Hrun].
      destruct s; simpl in *; lra.
Qed.

Lemma enlarge_keeps env s lim p lim' scaled :
  inside p lim ->
  in_room env p ->
  enlarge env s lim = Ok (lim', scaled) ->
  inside p lim' /\ inside p (limits scaled).
Proof.
  intros Hin Hroom Hrun. unfold enlarge in Hrun.
  apply bind_Ok in Hrun. destruct Hrun as [found [_ Hrun]].
  pose proof (in_room_side_ok env p s Hroom) as Hr.
  destruct (nonempty found); cbn [negb] in Hrun.
  - apply bind_Ok in Hrun. destruct Hrun as [[v scaled'] [Hloop Hrun]].
    inversion Hrun; subst.
    apply (enlarge_loop_keeps env s lim p) in Hloop;
      [|apply inside_side_value, Hin|exact Hr].
    destruct Hloop as [Hv [v'' [Hl Hv'']]].
    split; [apply inside_with_side; assumption|].
    rewrite Hl. apply inside_with_side; assumption.
  - inversion Hrun; subst.
    rewrite limits_border_with. split; apply inside_with_side; assumption.
Qed.

(** After the re-scan the last waypoint is the one from before, or a
    point that was found inside the scaled border. *)
Lemma rescan_loop_last b d : forall pts wps,
  last (rescan_loop b pts wps) d = last wps d
  \/ point_in_frame (last (rescan_loop b pts wps) d) b 0 = true.
Proof.
  induction pts as [|p rest IH]; intros wps; simpl; [left; reflexivity|].
  destruct (point_in_frame p b 0) eqn:Ep; [|left; reflexivity].
  destruct (py_in p wps); simpl; [apply IH|].
  destruct (IH (wps ++ [p])) as [Hl|Hr]; [|right; exact Hr].
  right. rewrite Hl, last_app_one. exact Ep.
Qed.

(** [scale_up_frame] returns a frame whose last waypoint, when it is in
    the room, is inside the border. *)
Lemma scale_up_frame_last_inside (self : Problem) (f : Frame) b wps p q :
  scale_up_frame self f = Ok (b, wps) ->
  last_waypoint (waypoints f) = Ok p ->
  inside p (limits (border f)) ->
  last_waypoint wps = Ok q ->
  in_room (environment self) q ->
  inside q (limits b).
Proof.
  intros Hrun Hp Hin Hq Hroom. unfold scale_up_frame in Hrun.
  apply bind_Ok in Hrun. destruct Hrun as [[lim1 s1] [H1 Hrun]].
  apply bind_Ok in Hrun. destruct Hrun as [[lim2 s2] [H2 Hrun]].
  apply bind_Ok in Hrun. destruct Hrun as [[lim3 s3] [H3 Hrun]].
  apply bind_Ok in Hrun. destruct Hrun as [[lim4 scaled] [H4 Hrun]].
  apply bind_Ok in Hrun. destruct Hrun as [lastp [Hlast Hrun]].
  apply bind_Ok in Hrun. destruct Hrun as [index [_ Hrun]].
  inversion Hrun; subst. clear Hrun.
  rewrite Hp in Hlast. inversion Hlast; subst lastp.
  destruct (last_waypoint_last _ _ p Hq) as [Hq' _].
  destruct (last_waypoint_last _ _ p Hp) as [Hp' _].
  destruct (rescan_loop_last b p (skipn index (global_path self)) (waypoints f))
    as [Hsame|Hnew].
  - assert (Heq : q = p) by (rewrite <- Hq', Hsame; exact Hp').
    rewrite Heq in Hroom |- *.
    destruct (enlarge_keeps _ _ _ _ _ _ Hin Hroom H1) as [I1 _].
    destruct (enlarge_keeps _ _ _ _ _ _ I1 Hroom H2) as [I2 _].
    destruct (enlarge_keeps _ _ _ _ _ _ I2 Hroom H3) as [I3 _].
    destruct (enlarge_keeps _ _ _ _ _ _ I3 Hroom H4) as [_ I4].
    exact I4.
  - rewrite Hq' in Hnew. apply point_in_frame_inside, Hnew.
Qed.

(** ** The loops of [scale_up_frame] end *)

Lemma stationary_loop_raises b obs : forall idx e,
  stationary_loop b obs idx = Raise e -> e = RuntimeError.
Proof.
  induction obs as [|o rest IH]; intros idx e Hrun; simpl in Hrun; [discriminate|].
  destruct (is_stationary o); [|eapply IH; eauto].
  destruct (supported_shape (obs_shape o)); [|congruence].
  destruct (stationary_loop b rest (S idx)) eqn:E; simpl in Hrun; [discriminate|].
  inversion Hrun; subst. eapply IH; eauto.
Qed.

(** With more iterations than tenths between the side and the room's
    limit, a loop of [scale_up_frame] leaves by one of its two [break]s. *)
Lemma enlarge_loop_fuel_enough env s lim : forall n v e,
  side_gap s (room_limit env s) v * 10 < inject_Z (Z.of_nat n) ->
  enlarge_loop (S n) env s lim v = Raise e -> e = RuntimeError.
Proof.
  induction n as [|n IH]; intros v e Hgap Hrun; cbn [enlarge_loop] in Hrun.
  - destruct (side_beyond s (side_step s v) (room_limit env s)) eqn:Eb; [discriminate|].
    exfalso. change (inject_Z (Z.of_nat 0)) with 0 in Hgap.
    destruct s; simpl in *; qbool; qlra.
  - destruct (side_beyond s (side_step s v) (room_limit env s)) eqn:Eb; [discriminate|].
    destruct (get_stationary_obstacles_in_frame env (border_with s lim (side_step s v)))
      as [found|e'] eqn:Es; simpl in Hrun.
    + destruct (nonempty found); simpl in Hrun; [discriminate|].
      apply (IH (side_step s v)); [|exact Hrun].
      rewrite Nat2Z.inj_succ, <- Z.add_1_r, inject_Z_plus in Hgap.
      change (inject_Z 1) with 1 in Hgap.
      destruct s; simpl in *; qlra.
    + inversion Hrun; subst. eapply stationary_loop_raises; eauto.
Qed.

Lemma enlarge_fuel_enough env s v :
  side_gap s (room_limit env s) v * 10
  < inject_Z (Z.of_nat (S (Z.to_nat (Qfloor (side_gap s (room_limit env s) v * 10))))).
Proof.
  set (g := side_gap s (room_limit env s) v * 10).
  apply Qlt_le_trans with (inject_Z (Qfloor g + 1)); [apply Qlt_floor|].
  rewrite <- Zle_Qle. lia.
Qed.

Lemma enlarge_raises env s lim e : enlarge env s lim = Raise e -> e = RuntimeError.
Proof.
  unfold enlarge. intro Hrun.
  apply bind_Raise in Hrun. destruct Hrun as [Hq|[found [_ Hrun]]].
  - eapply stationary_loop_raises; eauto.
  - destruct (nonempty found); cbn [negb] in Hrun; [|discriminate].
    apply bind_Raise in Hrun. destruct Hrun as [Hl|[[v scaled] [_ Hrun]]];
      [|discriminate].
    unfold enlarge_fuel in Hl.
    eapply enlarge_loop_fuel_enough; [apply enlarge_fuel_enough | exact Hl].
Qed.

(** [scale_up_frame] always comes back: the model never runs out of
    fuel. *)
Lemma scale_up_frame_terminates (self : Problem) (f : Frame) :
  scale_up_frame self f <> Raise OutOfFuel.
Proof.
  unfold scale_up_frame. intro Hrun.
  repeat match type of Hrun with
  | bind (enlarge ?env ?s ?lim) _ = _ =>
      let E := fresh "E" in
      destruct (enlarge env s lim) as [[? ?]|?] eqn:E; simpl in Hrun;
        [|inversion Hrun; subst; apply enlarge_raises in E; discriminate]
  end.
  destruct (last_waypoint (waypoints f)) as [lastp|e] eqn:El; simpl in Hrun.
  - assert (Hidx : forall l, py_index lastp l <> Raise OutOfFuel).
    { induction l as [|y rest IH]; simpl; [discriminate|].
      destruct (pt_eqb y lastp); [discriminate|].
      destruct (py_index lastp rest); simpl; [discriminate|exact IH]. }
    destruct (py_index lastp (global_path self)) eqn:Ei; simpl in Hrun; [discriminate|].
    apply (Hidx (global_path self)). rewrite Ei. congruence.
  - unfold last_waypoint in El. destruct (rev (waypoints f)); congruence.
Qed.

(** ** Validity once the endpoint is the goal *)

(** Whether the reachability correction keeps the terminal waypoint of the
    frame built from [start]: it does when the waypoint is farther than
    the vehicle size from the border on both axes. *)
Definition terminal_waypoint_kept (self : Problem) (start : point) : result bool :=
  f0 <- get_min_nobs_frame self start ;;
  '(b, wps) <- scale_up_frame self f0 ;;
  lastp <- last_waypoint wps ;;
  Ok (negb (any_too_close (veh_size self) (distance_to_border lastp b))).

Lemma in_room_pt_eq env p q : pt_eq p q -> in_room env p -> in_room env q.
Proof.
  unfold pt_eq, in_room. intros [Hx Hy] [[H1 H2] [H3 H4]]. repeat split; lra.
Qed.

Lemma pt_eq_sym p q : pt_eq p q -> pt_eq q p.
Proof. unfold pt_eq. intros [Hx Hy]. split; symmetry; assumption. Qed.

(** The terminal waypoint of a scaled min-nobs frame lies in its border
    when it is the goal and the goal is in the room. *)
Lemma scaled_frame_holds_goal (self : Problem) start f0 b wps lastp :
  0 <= veh_size self ->
  in_room (environment self) (goal_state self) ->
  get_min_nobs_frame self start = Ok f0 ->
  scale_up_frame self f0 = Ok (b, wps) ->
  last_waypoint wps = Ok lastp ->
  pt_eq lastp (goal_state self) ->
  point_in_frame (goal_state self) b 0 = true.
Proof.
  intros Hv Hroom E0 E1 E2 Hgoal.
  destruct (get_min_nobs_frame_last_inside self _ _ Hv E0) as [p [Hp Hin]].
  apply point_in_frame_inside. apply (inside_pt_eq lastp); [exact Hgoal|].
  eapply scale_up_frame_last_inside; eauto.
  eapply in_room_pt_eq; [apply pt_eq_sym; exact Hgoal | exact Hroom].
Qed.

(** When the correction keeps the terminal waypoint, the frame has the
    scaled border and that waypoint for endpoint. *)
Lemma move_waypoint_kept new_waypoint veh b wps lastp :
  last_waypoint wps = Ok lastp ->
  any_too_close veh (distance_to_border lastp b) = false ->
  move_waypoint new_waypoint veh b wps = Ok wps.
Proof.
  intros E2 Hclose. unfold move_waypoint. rewrite E2. cbn [bind].
  rewrite Hclose. reflexivity.
Qed.

(** How an active min-nobs frame [f] comes about: [create_frame] builds it
    around the vehicle, or [create_next_frame] builds it ahead, from the
    endpoint of the frame before, and [update_frame] promotes it.  [start]
    is where the builder starts. *)
Inductive made_from (self : Problem) (f : Frame) (start : point) : Prop :=
  | made_by_create_frame (made : Problem) :
      ftype (frame self) = MinNobs ->
      create_frame self = Ok made ->
      frame made = f ->
      start = curr_state self ->
      made_from self f start
  | made_by_create_next_frame (prev : Frame) :
      endpoint_frame prev = Some start ->
      create_next_frame self prev = Ok (Some f) ->
      made_from self f start.

Lemma made_from_kept (self : Problem) (f : Frame) (start : point) :
  made_from self f start ->
  terminal_waypoint_kept self start = Ok true ->
  exists f0 b wps lastp,
    get_min_nobs_frame self start = Ok f0
    /\ scale_up_frame self f0 = Ok (b, wps)
    /\ last_waypoint wps = Ok lastp
    /\ ftype f = MinNobs /\ border f = b /\ endpoint_frame f = Some lastp.
Proof.
  intros Hmade Hkept. unfold terminal_waypoint_kept in Hkept.
  destruct (get_min_nobs_frame self start) as [f0|e] eqn:E0; [|discriminate].
  cbn [bind] in Hkept.
  destruct (scale_up_frame self f0) as [[b wps]|e] eqn:E1; [|discriminate].
  cbn [bind] in Hkept.
  destruct (last_waypoint wps) as [lastp|e] eqn:E2; [|discriminate].
  cbn [bind] in Hkept. injection Hkept as Hclose. apply negb_true_iff in Hclose.
  exists f0, b, wps, lastp.
  split; [reflexivity|]. split; [exact E1|]. split; [exact E2|].
  destruct Hmade as [made Htype Hmade Hf Hs | prev Hprev Hnext].
  - subst start. unfold create_frame in Hmade. rewrite Htype in Hmade.
    apply bind_Ok in Hmade. destruct Hmade as [[f' nf] [Hbuild Hmade]].
    assert (Hmf : frame made = f') by (injection Hmade as <-; reflexivity).
    rewrite Hmf in Hf. subst f'. clear Hmade Hmf.
    unfold create_frame_min_nobs in Hbuild. rewrite E0 in Hbuild. cbn [bind] in Hbuild.
    rewrite E1 in Hbuild. cbn [bind] in Hbuild.
    rewrite (move_waypoint_kept _ _ _ _ _ E2 Hclose) in Hbuild. cbn [bind] in Hbuild.
    apply bind_Ok in Hbuild. destruct Hbuild as [found [_ Hbuild]].
    rewrite E2 in Hbuild. cbn [bind] in Hbuild.
    apply bind_Ok in Hbuild. destruct Hbuild as [next [_ Hbuild]].
    injection Hbuild as Hf Hnf. rewrite <- Hf. repeat split.
  - unfold create_next_frame in Hnext. rewrite Hprev in Hnext.
    destruct (negb (pt_eqb start (goal_state self))); [|discriminate].
    rewrite E0 in Hnext. cbn [bind] in Hnext.
    rewrite E1 in Hnext. cbn [bind] in Hnext.
    rewrite (move_waypoint_kept _ _ _ _ _ E2 Hclose) in Hnext. cbn [bind] in Hnext.
    apply bind_Ok in Hnext. destruct Hnext as [found [_ Hnext]].
    rewrite E2 in Hnext. cbn [bind] in Hnext.
    injection Hnext as Hf. rewrite <- Hf. repeat split.
Qed.

(** C7.  Take a min-nobs frame [f], made by [create_frame] or by
    [create_next_frame], in a room that holds the goal, whose terminal
    waypoint the reachability correction kept.  Once its endpoint equals
    the goal state, [check_frame] answers [True] in every later state of
    the problem whose active frame has the type and the border of [f] and
    whose goal is the same: at every control step until the frame is
    replaced, whatever the vehicle's position, the motion time, the
    waypoints (of which [get_init_guess] rewrites the first), the moving
    obstacles ([update_frame] and [solve] set them), the endpoint entry and
    the next frame are. *)
Theorem check_frame_valid_once_endpoint_is_goal
    (self later : Problem) (f : Frame) (start endpoint : point) :
  made_from self f start ->
  0 <= veh_size self ->
  in_room (environment self) (goal_state self) ->
  terminal_waypoint_kept self start = Ok true ->
  endpoint_frame f = Some endpoint ->
  pt_eq endpoint (goal_state self) ->
  ftype (frame later) = ftype f ->
  border (frame later) = border f ->
  goal_state later = goal_state self ->
  check_frame later = Ok (Some true).
Proof.
  intros Hmade Hv Hroom Hkept Hend Hgoal Htype Hborder Hsame.
  destruct (made_from_kept self f start Hmade Hkept)
    as [f0 [b [wps [lastp [E0 [E1 [E2 [Ht [Hb He]]]]]]]]].
  assert (Hl : lastp = endpoint) by congruence.
  rewrite Hl in E2.
  pose proof (scaled_frame_holds_goal self start f0 b wps endpoint Hv Hroom E0 E1 E2 Hgoal)
    as Hg.
  unfold check_frame. rewrite Htype, Hborder, Hsame, Ht, Hb, Hg. reflexivity.
Qed.

(** ** The two reachability corrections side by side *)

(** On a horizontal waypoint line whose end is too close to the border in
    x only, the correction of [create_frame] returns to the x-coordinate
    of the far waypoint, whatever [np.arctan2] and [np.tan] compute: the
    last assignment multiplies by the slope [(y2-y1)/(x2-x1)], which is
    zero. *)
Lemma create_frame_correction_horizontal (veh : Q) (b : Border) (x1 x2 y : Q) (q : point) :
  too_close veh (fst (distance_to_border (x2, y) b)) = true ->
  too_close veh (snd (distance_to_border (x2, y) b)) = false ->
  new_waypoint_create veh b (x1, y) (x2, y) = Some q ->
  fst q == x1.
Proof.
  intros Hx Hy Hnew. unfold new_waypoint_create in Hnew.
  destruct (limits b) as [[[xmin ymin] xmax] ymax].
  rewrite Hx, Hy in Hnew. injection Hnew as <-.
  simpl. unfold Qdiv. ring.
Qed.


(** ** Where [scale_up_frame] skips the obstacle query *)

(** When the room's limit on a side is obstructed and one step of [0.1]
    already passes it, [scale_up_frame] commits the room's limit on that
    side all the same. *)
Lemma enlarge_commits_obstructed_limit env s lim found :
  get_stationary_obstacles_in_frame env (border_with s lim (room_limit env s)) = Ok found ->
  nonempty found = true ->
  side_beyond s (side_step s (side_value s lim)) (room_limit env s) = true ->
  enlarge env s lim
  = Ok (with_side s lim (room_limit env s),
        border_with s lim (side_step s (side_value s lim))).
Proof.
  intros Hq Hne Hb. unfold enlarge. rewrite Hq. cbn [bind]. rewrite Hne. cbn [negb].
  unfold enlarge_fuel. cbn [enlarge_loop]. rewrite Hb. reflexivity.
Qed.

(** ** The vehicle size in the clearance comparisons *)



(** * Further properties of the frame engine *)

(** ** [point_in_frame] *)

(** X1.  A point that is in the frame with a margin is in the frame
    with every smaller margin: the next-frame entry test of [check_frame]
    (margin [veh_size]) implies plain containment. *)
Theorem point_in_frame_smaller_margin (p : point) (b : Border) (d d' : Q) :
  d' <= d ->
  point_in_frame p b d = true ->
  point_in_frame p b d' = true.
Proof.
  unfold point_in_frame. destruct (limits b) as [[[xmin ymin] xmax] ymax].
  intros Hd Hin. qbool.
  rewrite !andb_true_iff, !Qleb_true. repeat split; lra.
Qed.

Lemma sample_count_positive (mt : Q) : 0 <= mt -> (1 <= sample_count mt)%Z.
Proof.
  intro Hmt. unfold sample_count, py_round.
  assert (Hq : 0 <= mt / 0.5) by qlra.
  destruct (0 <=? mt / 0.5) eqn:E; [|apply Qleb_false in E; qlra].
  assert (Hf : (0 <= Qfloor (mt / 0.5 + (1 # 2)))%Z).
  { change 0%Z with (Qfloor 0). apply Qfloor_resp_le. qlra. }
  lia.
Qed.

(** X3.  For a motion time that is not negative the moving-point test
    takes at least two samples, and two consecutive samples are less than
    the [time_interval] of 0.5 apart. *)
Theorem sampling_step_below_interval (mt : Q) :
  0 <= mt ->
  (1 <= sample_count mt)%Z /\ mt / inject_Z (sample_count mt) < 0.5.
Proof.
  intro Hmt. split; [apply sample_count_positive, Hmt|].
  pose proof (sample_count_positive mt Hmt) as Hpos.
  assert (HN : 0 < inject_Z (sample_count mt)).
  { rewrite <- (Zlt_Qlt 0). lia. }
  apply Qlt_shift_div_r; [exact HN|].
  unfold sample_count, py_round in *.
  assert (Hq : 0 <= mt / 0.5) by qlra.
  destruct (0 <=? mt / 0.5) eqn:E; [|apply Qleb_false in E; qlra].
  pose proof (Qlt_floor (mt / 0.5 + (1 # 2))) as Hfl.
  qlra.
Qed.

(** X2.  For a motion time that is not negative the moving-point test
    does not raise, and it answers [True] as soon as the point is in the
    border at the start of the motion or at its end, [point + mt *
    velocity]. *)
Theorem point_in_frame_moving_ends (p v : point) (b : Border) (mt : Q) :
  0 <= mt ->
  exists hit, point_in_frame_moving p v b mt = Ok hit
    /\ (point_in_frame p b 0 = true -> hit = true)
    /\ (point_in_frame (fst p + mt * fst v, snd p + mt * snd v) b 0 = true -> hit = true).
Proof.
  intro Hmt. pose proof (sample_count_positive mt Hmt) as Hpos.
  unfold point_in_frame_moving, point_in_frame.
  destruct (limits b) as [[[xmin ymin] xmax] ymax].
  destruct (sample_count mt =? 0)%Z eqn:E0; [apply Z.eqb_eq in E0; lia|].
  eexists. split; [reflexivity|].
  assert (HN : ~ inject_Z (sample_count mt) == 0).
  { intro Hq. unfold Qeq in Hq. simpl in Hq. lia. }
  split; intro Hin; apply existsb_exists.
  - exists (inject_Z (Z.of_nat 0)). split.
    + unfold py_range.
      apply (in_map (fun l => inject_Z (Z.of_nat l)) _ 0%nat), in_seq. lia.
    + qbool. simpl fst in *. simpl snd in *. change (inject_Z (Z.of_nat 0)) with 0.
      rewrite !andb_true_iff, !Qleb_true. repeat split; lra.
  - exists (inject_Z (Z.of_nat (Z.to_nat (sample_count mt)))). split.
    + unfold py_range.
      apply (in_map (fun l => inject_Z (Z.of_nat l)) _ (Z.to_nat (sample_count mt))),
        in_seq. lia.
    + rewrite Z2Nat.id by lia.
      assert (Hx : inject_Z (sample_count mt) * (mt / inject_Z (sample_count mt)) == mt)
        by (field; exact HN).
      qbool. simpl fst in *. simpl snd in *.
      rewrite !andb_true_iff, !Qleb_true.
      set (N := inject_Z (sample_count mt)) in *.
      set (Ts := mt / N) in *.
      assert (Hvx : N * Ts * fst v == mt * fst v) by (rewrite Hx; reflexivity).
      assert (Hvy : N * Ts * snd v == mt * snd v) by (rewrite Hx; reflexivity).
      repeat split; lra.
Qed.

(** ** [get_stationary_obstacles_in_frame] *)

Lemma stationary_loop_In b obs : forall idx found i,
  stationary_loop b obs idx = Ok found ->
  (In i found <->
   exists o, (idx <= i)%nat /\ nth_error obs (i - idx) = Some o
             /\ is_stationary o = true /\ overlaps b o = true).
Proof.
  induction obs as [|o rest IH]; intros idx found i Hrun; simpl in Hrun.
  - inversion Hrun; subst. simpl. split; [tauto|].
    intros [o' [_ [Hn _]]]. destruct (i - idx)%nat; discriminate.
  - assert (Hshift : forall o', (S idx <= i)%nat ->
              (nth_error rest (i - S idx) = Some o' <->
               nth_error (o :: rest) (i - idx) = Some o')).
    { intros o' Hle. replace (i - idx)%nat with (S (i - S idx)) by lia. reflexivity. }
    destruct (is_stationary o) eqn:Es.
    + destruct (supported_shape (obs_shape o)); [|discriminate].
      apply bind_Ok in Hrun. destruct Hrun as [found' [Hrest Hrun]].
      specialize (IH (S idx) found' i Hrest).
      inversion Hrun; subst found. clear Hrun.
      destruct (overlaps b o) eqn:Eo; simpl; rewrite ?IH; split.
      * intros [<- | [o' [Hle [Hn Hp]]]].
        -- exists o. rewrite Nat.sub_diag. simpl. auto.
        -- exists o'. split; [lia|]. split; [apply Hshift; assumption | exact Hp].
      * intros [o' [Hle [Hn Hp]]].
        destruct (Nat.eq_dec idx i) as [->|Hne]; [left; reflexivity|right].
        exists o'. split; [lia|]. split; [apply Hshift; [lia | exact Hn] | exact Hp].
      * intros [o' [Hle [Hn Hp]]].
        exists o'. split; [lia|]. split; [apply Hshift; assumption | exact Hp].
      * intros [o' [Hle [Hn [Hs Hp]]]].
        destruct (Nat.eq_dec idx i) as [->|Hne].
        -- rewrite Nat.sub_diag in Hn. simpl in Hn. inversion Hn; subst. congruence.
        -- exists o'. split; [lia|]. split; [apply Hshift; [lia | exact Hn] | auto].
    + specialize (IH (S idx) found i Hrun). rewrite IH. split.
      * intros [o' [Hle [Hn Hp]]].
        exists o'. split; [lia|]. split; [apply Hshift; assumption | exact Hp].
      * intros [o' [Hle [Hn [Hs Hp]]]].
        destruct (Nat.eq_dec idx i) as [->|Hne].
        -- rewrite Nat.sub_diag in Hn. simpl in Hn. inversion Hn; subst. congruence.
        -- exists o'. split; [lia|]. split; [apply Hshift; [lia | exact Hn] | auto].
Qed.

(** X4.  When the stationary query returns, it returns exactly the
    obstacles of the environment that pass the stationarity test and whose
    bounding box, moved to the obstacle's position, overlaps the border;
    moving obstacles are never in the list. *)
Theorem stationary_query_exact (env : Environment) (b : Border) (found : list nat) :
  get_stationary_obstacles_in_frame env b = Ok found ->
  forall i, In i found <->
    exists o, nth_error (obstacles env) i = Some o
              /\ is_stationary o = true /\ overlaps b o = true.
Proof.
  unfold get_stationary_obstacles_in_frame. intros Hrun i.
  rewrite (stationary_loop_In _ _ _ _ i Hrun). rewrite Nat.sub_0_r.
  split; intros [o Ho]; exists o; [tauto | split; [lia | tauto]].
Qed.

(** Every stationary obstacle is a circle or a rectangle with
    orientation zero. *)
Definition all_supported (obs : list Obstacle) : bool :=
  forallb (fun o => implb (is_stationary o) (supported_shape (obs_shape o))) obs.

Lemma stationary_loop_outcome b obs : forall idx,
  if all_supported obs
  then exists found, stationary_loop b obs idx = Ok found
  else stationary_loop b obs idx = Raise RuntimeError.
Proof.
  unfold all_supported.
  induction obs as [|o rest IH]; intro idx; simpl.
  - eexists. reflexivity.
  - specialize (IH (S idx)).
    destruct (is_stationary o); simpl.
    + destruct (supported_shape (obs_shape o)); simpl; [|reflexivity].
      destruct (forallb _ rest).
      * destruct IH as [found ->]. simpl. eexists. reflexivity.
      * rewrite IH. reflexivity.
    + exact IH.
Qed.

(** X5.  The stationary query raises exactly when some stationary
    obstacle is a rectangle with a non-zero orientation, whatever the
    border is, and then it raises [RuntimeError]; a rotated obstacle that
    moves is not looked at. *)
Theorem stationary_query_raises (env : Environment) (b : Border) :
  if all_supported (obstacles env)
  then exists found, get_stationary_obstacles_in_frame env b = Ok found
  else get_stationary_obstacles_in_frame env b = Raise RuntimeError.
Proof.
  apply stationary_loop_outcome.
Qed.

(** The limits of [b] lie within those of [b']. *)
Definition border_within (b b' : Border) : Prop :=
  (b_xmin b' <= b_xmin b /\ b_xmax b <= b_xmax b')
  /\ (b_ymin b' <= b_ymin b /\ b_ymax b <= b_ymax b').

Lemma overlaps_within b b' o :
  border_within b b' -> overlaps b o = true -> overlaps b' o = true.
Proof.
  unfold border_within, overlaps, b_xmin, b_xmax, b_ymin, b_ymax.
  destruct (limits b) as [[[xmin ymin] xmax] ymax].
  destruct (limits b') as [[[xmin' ymin'] xmax'] ymax'].
  destruct (get_canvas_limits (obs_shape o)) as [[x0 x1] [y0 y1]].
  destruct (signals_position o) as [posx posy].
  intros [[H1 H2] [H3 H4]] Ho. qbool.
  rewrite !andb_true_iff, !Qleb_true. repeat split; lra.
Qed.

(** X6.  Enlarging the border can only add stationary obstacles: what
    the query finds in a border it finds in every border that contains
    it. *)
Theorem stationary_query_monotone (env : Environment) (b b' : Border) (found : list nat) :
  border_within b b' ->
  get_stationary_obstacles_in_frame env b = Ok found ->
  exists found', get_stationary_obstacles_in_frame env b' = Ok found'
                 /\ incl found found'.
Proof.
  unfold get_stationary_obstacles_in_frame. intros Hw Hrun.
  pose proof (stationary_loop_outcome b' (obstacles env) 0) as Hb'.
  pose proof (stationary_loop_outcome b (obstacles env) 0) as Hb.
  destruct (all_supported (obstacles env)).
  - destruct Hb' as [found' Hrun']. exists found'. split; [exact Hrun'|].
    intros i Hi.
    apply (stationary_loop_In _ _ _ _ i Hrun) in Hi.
    destruct Hi as [o [Hle [Hn [Hs Ho]]]].
    apply (stationary_loop_In _ _ _ _ i Hrun').
    exists o. split; [exact Hle|]. split; [exact Hn|]. split; [exact Hs|].
    eapply overlaps_within; eauto.
  - rewrite Hb in Hrun. discriminate.
Qed.

(** ** [get_moving_obstacles_in_frame], continued *)

Lemma point_in_frame_moving_returns p v b mt :
  0 <= mt -> exists hit, point_in_frame_moving p v b mt = Ok hit.
Proof.
  intro Hmt. pose proof (sample_count_positive mt Hmt) as Hpos.
  unfold point_in_frame_moving.
  destruct (limits b) as [[[xmin ymin] xmax] ymax].
  destruct (sample_count mt =? 0)%Z eqn:E0; [apply Z.eqb_eq in E0; lia|].
  eexists. reflexivity.
Qed.

Lemma first_hit_returns b mt o chcks :
  0 <= mt -> exists h, first_hit b mt o chcks = Ok h.
Proof.
  intro Hmt. induction chcks as [|c rest IH]; simpl; [eexists; reflexivity|].
  destruct (point_in_frame_moving_returns (vertex_of o c) (signals_velocity o) b mt Hmt)
    as [hit ->].
  simpl. destruct hit; [eexists; reflexivity | exact IH].
Qed.

Lemma moving_loop_returns b mt obs :
  0 <= mt -> forall idx c, exists res, moving_loop b mt obs idx c = Ok res.
Proof.
  intro Hmt. induction obs as [|o rest IH]; intros idx c; simpl;
    [eexists; reflexivity|].
  destruct (is_moving o).
  - rewrite chck_loop_first_hit.
    destruct (first_hit_returns b mt o (obs_chck (obs_shape o)) Hmt) as [h ->].
    cbn [bind].
    destruct (if h then (true, negb (avoid o))
              else if nonempty (obs_chck (obs_shape o)) then (false, avoid o || c)
                   else (avoid o, c)) as [a c1].
    destruct (IH (S idx) c1) as [[[rest' mv] c2] ->]. simpl. eexists. reflexivity.
  - destruct (IH (S idx) c) as [[[rest' mv] c2] ->]. simpl. eexists. reflexivity.
Qed.

(** X7.  With a motion time that is not negative the moving-obstacle
    query always returns: no obstacle, shape or flag makes it raise. *)
Theorem moving_query_returns (obs : list Obstacle) (b : Border) (mt : Q)
    (prev : option (list nat)) :
  0 <= mt ->
  exists obs' moving changed,
    get_moving_obstacles_in_frame obs b mt prev = Ok (obs', (moving, changed)).
Proof.
  intro Hmt. unfold get_moving_obstacles_in_frame.
  destruct (moving_loop_returns b mt obs Hmt 0%nat false) as [[[obs' moving] c] ->].
  simpl. do 3 eexists. reflexivity.
Qed.

Lemma moving_loop_touches_flags b mt obs : forall idx c obs' moving c' i o,
  moving_loop b mt obs idx c = Ok (obs', moving, c') ->
  nth_error obs i = Some o ->
  exists a, nth_error obs' i = Some (set_avoid o a)
            /\ (is_moving o = false -> a = avoid o).
Proof.
  induction obs as [|o1 rest IH]; intros idx c obs' moving c' i o Hrun Hn; simpl in *.
  - destruct i; discriminate.
  - destruct (is_moving o1) eqn:Em.
    + apply bind_Ok in Hrun. destruct Hrun as [[a c1] [_ Hrun]].
      apply bind_Ok in Hrun. destruct Hrun as [[[rest' mv] c2] [Hrest Hrun]].
      inversion Hrun; subst.
      destruct i as [|i]; simpl in *.
      * inversion Hn; subst. exists a. split; [reflexivity | congruence].
      * eapply IH; eauto.
    + apply bind_Ok in Hrun. destruct Hrun as [[[rest' mv] c2] [Hrest Hrun]].
      inversion Hrun; subst.
      destruct i as [|i]; simpl in *.
      * inversion Hn; subst. exists (avoid o). split; [|reflexivity].
        destruct o; reflexivity.
      * eapply IH; eauto.
Qed.

(** X8.  The moving-obstacle query leaves the environment as it is but
    for avoid flags: the obstacles keep their number, order, shapes,
    positions and velocities, and an obstacle at rest keeps its flag
    too. *)
Theorem moving_query_only_sets_flags
    (obs obs' : list Obstacle) (b : Border) (mt : Q) (prev : option (list nat))
    (moving : list nat) (changed : bool) :
  get_moving_obstacles_in_frame obs b mt prev = Ok (obs', (moving, changed)) ->
  length obs' = length obs
  /\ forall i o, nth_error obs i = Some o ->
       exists a, nth_error obs' i = Some (set_avoid o a)
                 /\ (is_moving o = false -> a = avoid o).
Proof.
  unfold get_moving_obstacles_in_frame. intro Hrun.
  apply bind_Ok in Hrun. destruct Hrun as [[[o1 m1] c1] [Hloop Hrun]].
  inversion Hrun; subst. split.
  - apply (moving_loop_positions _ _ _ _ _ _ _ _ Hloop).
  - intros i o Hn. eapply moving_loop_touches_flags; eauto.
Qed.

(** X9.  When the number of moving obstacles differs from the length of
    the list kept from the previous call, the query reports a change,
    whatever happened to the flags. *)
Theorem moving_query_count_change
    (obs obs' : list Obstacle) (b : Border) (mt : Q) (prev moving : list nat)
    (changed : bool) :
  get_moving_obstacles_in_frame obs b mt (Some prev) = Ok (obs', (moving, changed)) ->
  length prev <> length (filter is_moving obs) ->
  changed = true.
Proof.
  unfold get_moving_obstacles_in_frame. intros Hrun Hlen.
  apply bind_Ok in Hrun. destruct Hrun as [[[o1 m1] c1] [Hloop Hrun]].
  destruct (moving_loop_positions _ _ _ _ _ _ _ _ Hloop) as [Hm _].
  assert (Hcount : forall l idx, length (moving_positions l idx) = length (filter is_moving l)).
  { induction l as [|o rest IH]; intro idx; simpl; [reflexivity|].
    destruct (is_moving o); simpl; rewrite IH; reflexivity. }
  inversion Hrun; subst.
  rewrite Hcount.
  destruct (Nat.eqb (length prev) (length (filter is_moving obs))) eqn:E; simpl.
  - apply Nat.eqb_eq in E. contradiction.
  - reflexivity.
Qed.

(** ** The min-nobs builder, continued *)

Lemma update_frame_query (self : Problem) b prev p b' found :
  update_frame_with_waypoint self b prev p = Ok (b', found) ->
  get_stationary_obstacles_in_frame (environment self) b' = Ok found.
Proof.
  intro Hrun. unfold update_frame_with_waypoint in Hrun.
  destruct (limits b) as [[[xmin ymin] xmax] ymax].
  destruct (if fst prev <? fst p then _ else _) as [xmin_new xmax_new].
  destruct (if snd prev <? snd p then _ else _) as [ymin_new ymax_new].
  apply bind_Ok in Hrun. destruct Hrun as [so [Hq Hrun]].
  inversion Hrun; subst. exact Hq.
Qed.

(** X10.  [update_frame_with_waypoint] returns a border that holds both
    the new waypoint and the point it was compared with, whenever that
    point was in the border before, together with what the stationary
    query finds in the new border. *)
Theorem update_frame_holds_both_points
    (self : Problem) (b b' : Border) (prev p : point) (found : list nat) :
  0 <= veh_size self ->
  point_in_frame prev b 0 = true ->
  update_frame_with_waypoint self b prev p = Ok (b', found) ->
  point_in_frame prev b' 0 = true
  /\ point_in_frame p b' 0 = true
  /\ get_stationary_obstacles_in_frame (environment self) b' = Ok found.
Proof.
  intros Hv Hin Hrun.
  apply point_in_frame_inside in Hin.
  split; [|split; [apply point_in_frame_inside; eapply update_frame_takes_point_in; eauto|]].
  - apply point_in_frame_inside.
    unfold update_frame_with_waypoint in Hrun. unfold inside in Hin.
    destruct (limits b) as [[[xmin ymin] xmax] ymax].
    destruct Hin as [[Hx1 Hx2] [Hy1 Hy2]].
    assert (Hm : 0 <= veh_size self * scale_factor) by (unfold scale_factor; lra).
    destruct (fst prev <? fst p) eqn:Ex1; [|destruct (fst p <? fst prev) eqn:Ex2];
      (destruct (snd prev <? snd p) eqn:Ey1; [|destruct (snd p <? snd prev) eqn:Ey2]);
      apply bind_Ok in Hrun; destruct Hrun as [so [_ Hrun]]; inversion Hrun; subst;
      simpl; qbool; repeat split; lra.
  - eapply update_frame_query; eauto.
Qed.

(** The border [get_min_nobs_frame] starts from: the square of half-width
    [veh_size * scale_factor] around [start]. *)
Definition seed_limits (self : Problem) (start : point) : Q * Q * Q * Q :=
  (fst start - veh_size self * scale_factor, snd start - veh_size self * scale_factor,
   fst start + veh_size self * scale_factor, snd start + veh_size self * scale_factor).

Lemma overlaps_limits b b' o : limits b = limits b' -> overlaps b o = overlaps b' o.
Proof. unfold overlaps. intros ->. reflexivity. Qed.

Lemma stationary_loop_limits b b' obs : limits b = limits b' ->
  forall idx, stationary_loop b obs idx = stationary_loop b' obs idx.
Proof.
  intro Hl. induction obs as [|o rest IH]; intro idx; simpl; [reflexivity|].
  rewrite (overlaps_limits b b' o Hl), IH. reflexivity.
Qed.

Lemma nonempty_false {A : Type} (l : list A) : nonempty l = false -> l = [].
Proof. destruct l; simpl; congruence. Qed.

(** The borders the absorbing loop goes through are free of stationary
    obstacles, or still the one it started from. *)
Lemma absorb_loop_free (self : Problem) start lim0 pts : forall b acc b' acc',
  (get_stationary_obstacles_in_frame (environment self) b = Ok [] \/ limits b = lim0) ->
  absorb_loop self start pts b acc = Ok (b', acc') ->
  get_stationary_obstacles_in_frame (environment self) b' = Ok [] \/ limits b' = lim0.
Proof.
  induction pts as [|p rest IH]; intros b acc b' acc' Hb Hrun; simpl in Hrun.
  - inversion Hrun; subst. exact Hb.
  - destruct (limits b) as [[[xmin ymin] xmax] ymax] eqn:El.
    destruct (point_in_frame p b 0); simpl in Hrun.
    + eapply IH; [|exact Hrun]. rewrite ?El in *. exact Hb.
    + apply bind_Ok in Hrun. destruct Hrun as [[b1 found] [Hupd Hrun]].
      destruct (nonempty found) eqn:En.
      * inversion Hrun; subst.
        assert (Hl : limits (make_border xmin ymin xmax ymax) = limits b)
          by (rewrite El; reflexivity).
        destruct Hb as [Hfree|Hseed].
        -- left. unfold get_stationary_obstacles_in_frame in *.
           rewrite (stationary_loop_limits _ _ _ Hl). exact Hfree.
        -- right. simpl. exact Hseed.
      * eapply IH; [|exact Hrun]. left.
        apply nonempty_false in En. subst found.
        eapply update_frame_query; eauto.
Qed.

(** X11.  [get_min_nobs_frame] never commits an enlargement that meets a
    stationary obstacle: the border it returns is free of stationary
    obstacles, unless it is still the square around [start] it began with,
    which is never queried. *)
Theorem get_min_nobs_frame_free_or_seed (self : Problem) (start : point) (f : Frame) :
  get_min_nobs_frame self start = Ok f ->
  get_stationary_obstacles_in_frame (environment self) (border f) = Ok []
  \/ limits (border f) = seed_limits self start.
Proof.
  intro Hrun. unfold get_min_nobs_frame in Hrun.
  destruct (global_path self) as [|first path'] eqn:Epath; [discriminate|].
  rewrite <- Epath in Hrun.
  apply bind_Ok in Hrun. destruct Hrun as [[[b' pts] e] [Hbuild Hrun]].
  destruct (nonempty pts); [|discriminate].
  inversion Hrun; subst; simpl. clear Hrun.
  destruct (point_in_frame (last (global_path self) first) _ 0); simpl in Hbuild.
  - inversion Hbuild; subst. right. reflexivity.
  - apply bind_Ok in Hbuild. destruct Hbuild as [[b1 found] [Hupd Hbuild]].
    destruct (nonempty found) eqn:En.
    + apply bind_Ok in Hbuild. destruct Hbuild as [[b2 pts2] [Habs Hbuild]].
      inversion Hbuild; subst.
      eapply absorb_loop_free; [|exact Habs]. right. reflexivity.
    + inversion Hbuild; subst. left.
      apply nonempty_false in En. subst found.
      eapply update_frame_query; eauto.
Qed.

Lemma absorb_loop_run (self : Problem) start pts : forall b acc b' acc',
  absorb_loop self start pts b acc = Ok (b', acc') ->
  exists n, acc' = acc ++ firstn n pts.
Proof.
  induction pts as [|p rest IH]; intros b acc b' acc' Hrun; simpl in Hrun.
  - inversion Hrun; subst. exists 0%nat. simpl. rewrite app_nil_r. reflexivity.
  - destruct (limits b) as [[[xmin ymin] xmax] ymax].
    assert (Hstep : forall b1, absorb_loop self start rest b1 (acc ++ [p]) = Ok (b', acc') ->
              exists n, acc' = acc ++ firstn n (p :: rest)).
    { intros b1 Hr. destruct (IH _ _ _ _ Hr) as [n ->].
      exists (S n). simpl. rewrite <- app_assoc. reflexivity. }
    destruct (point_in_frame p b 0); simpl in Hrun; [eapply Hstep; eauto|].
    apply bind_Ok in Hrun. destruct Hrun as [[b1 found] [_ Hrun]].
    destruct (nonempty found); [|eapply Hstep; eauto].
    inversion Hrun; subst. exists 0%nat. simpl. rewrite app_nil_r. reflexivity.
Qed.

(** X12.  The waypoints of the frame [get_min_nobs_frame] returns are a
    run of consecutive points of the global path that starts at the
    waypoint closest to [start], and there is at least one; earlier points
    of the path are never taken. *)
Theorem get_min_nobs_frame_waypoints_run (self : Problem) (start : point) (f : Frame) :
  get_min_nobs_frame self start = Ok f ->
  ftype f = MinNobs
  /\ waypoints f <> []
  /\ exists n, waypoints f
               = firstn n (skipn (closest_index self start) (global_path self)).
Proof.
  intro Hrun. unfold get_min_nobs_frame in Hrun.
  destruct (global_path self) as [|first path'] eqn:Epath; [discriminate|].
  rewrite <- Epath in Hrun.
  apply bind_Ok in Hrun. destruct Hrun as [[[b' pts] e] [Hbuild Hrun]].
  destruct (nonempty pts) eqn:Ene; [|discriminate].
  inversion Hrun; subst; simpl. clear Hrun.
  split; [reflexivity|]. split; [apply nonempty_not_nil, Ene|].
  rewrite <- Epath.
  set (rest := skipn (closest_index self start) (global_path self)) in *.
  assert (Hall : exists n, rest = firstn n rest).
  { exists (length rest). symmetry. apply firstn_all. }
  destruct (point_in_frame (last (global_path self) first) _ 0); simpl in Hbuild.
  - inversion Hbuild; subst. exact Hall.
  - apply bind_Ok in Hbuild. destruct Hbuild as [[b1 found] [Hupd Hbuild]].
    destruct (nonempty found).
    + apply bind_Ok in Hbuild. destruct Hbuild as [[b2 pts2] [Habs Hbuild]].
      inversion Hbuild; subst.
      destruct (absorb_loop_run _ _ _ _ _ _ _ Habs) as [n Hn].
      exists n. exact Hn.
    + inversion Hbuild; subst. exact Hall.
Qed.

(** ** [scale_up_frame], continued *)

Lemma py_index_raises x l e : py_index x l = Raise e -> e = ValueError.
Proof.
  induction l as [|y rest IH]; simpl; intro Hrun; [congruence|].
  destruct (pt_eqb y x); [discriminate|].
  apply bind_Raise in Hrun. destruct Hrun as [Hq|[i [_ Hq]]]; [auto | discriminate].
Qed.

(** X13.  [scale_up_frame] always comes back: each of its four loops
    ends by itself, and the only ways to fail are a stationary obstacle of
    an unsupported shape ([RuntimeError]), a frame without waypoints
    ([IndexError]) or a last waypoint that is not on the global path
    ([ValueError]). *)
Theorem scale_up_frame_failures (self : Problem) (f : Frame) (e : exn) :
  scale_up_frame self f = Raise e ->
  e = RuntimeError \/ e = IndexError \/ e = ValueError.
Proof.
  unfold scale_up_frame. intro Hrun.
  repeat match type of Hrun with
  | bind (enlarge ?env ?s ?lim) _ = _ =>
      let E := fresh "E" in
      apply bind_Raise in Hrun;
      destruct Hrun as [E|[[? ?] [E Hrun]]];
        [left; eapply enlarge_raises; exact E|]
  end.
  apply bind_Raise in Hrun. destruct Hrun as [El|[lastp [_ Hrun]]].
  - right. left. unfold last_waypoint in El.
    destruct (rev (waypoints f)); congruence.
  - apply bind_Raise in Hrun. destruct Hrun as [Ei|[i [_ Hrun]]]; [|discriminate].
    right. right. eapply py_index_raises; eauto.
Qed.

Lemma scale_up_frame_border (self : Problem) (f : Frame) b wps p :
  scale_up_frame self f = Ok (b, wps) ->
  inside p (limits (border f)) ->
  in_room (environment self) p ->
  inside p (limits b).
Proof.
  intros Hrun Hin Hroom. unfold scale_up_frame in Hrun.
  apply bind_Ok in Hrun. destruct Hrun as [[lim1 s1] [H1 Hrun]].
  apply bind_Ok in Hrun. destruct Hrun as [[lim2 s2] [H2 Hrun]].
  apply bind_Ok in Hrun. destruct Hrun as [[lim3 s3] [H3 Hrun]].
  apply bind_Ok in Hrun. destruct Hrun as [[lim4 scaled] [H4 Hrun]].
  apply bind_Ok in Hrun. destruct Hrun as [lastp [_ Hrun]].
  apply bind_Ok in Hrun. destruct Hrun as [index [_ Hrun]].
  inversion Hrun; subst. clear Hrun.
  destruct (enlarge_keeps _ _ _ _ _ _ Hin Hroom H1) as [I1 _].
  destruct (enlarge_keeps _ _ _ _ _ _ I1 Hroom H2) as [I2 _].
  destruct (enlarge_keeps _ _ _ _ _ _ I2 Hroom H3) as [I3 _].
  destruct (enlarge_keeps _ _ _ _ _ _ I3 Hroom H4) as [_ I4].
  exact I4.
Qed.

(** X14.  Scaling up loses no ground inside the room: every point of the
    room that was in the frame's border is in the scaled border.  (A side
    that lay beyond the room's wall is pulled back to the wall.) *)
Theorem scale_up_frame_keeps_room_points
    (self : Problem) (f : Frame) (b : Border) (wps : list point) (p : point) :
  scale_up_frame self f = Ok (b, wps) ->
  in_room (environment self) p ->
  point_in_frame p (border f) 0 = true ->
  point_in_frame p b 0 = true.
Proof.
  intros Hrun Hroom Hin. apply point_in_frame_inside.
  eapply scale_up_frame_border; eauto. apply point_in_frame_inside, Hin.
Qed.

Lemma rescan_loop_extends b : forall pts wps,
  exists extra, rescan_loop b pts wps = wps ++ extra
    /\ forall q, In q extra -> In q pts /\ point_in_frame q b 0 = true.
Proof.
  induction pts as [|p rest IH]; intros wps; simpl.
  - exists []. rewrite app_nil_r. split; [reflexivity | intros q []].
  - destruct (point_in_frame p b 0) eqn:Ep.
    + destruct (py_in p wps); simpl.
      * destruct (IH wps) as [extra [-> Hex]]. exists extra.
        split; [reflexivity|]. intros q Hq. destruct (Hex q Hq). auto.
      * destruct (IH (wps ++ [p])) as [extra [-> Hex]]. exists (p :: extra).
        split; [rewrite <- app_assoc; reflexivity|].
        intros q [<-|Hq]; [auto|]. destruct (Hex q Hq). auto.
    + exists []. rewrite app_nil_r. split; [reflexivity | intros q []].
Qed.

(** X15.  [scale_up_frame] only appends waypoints: the frame's waypoints
    stay at the head of the list, in order, and every waypoint added
    behind them is a point of the global path that lies in the scaled
    border. *)
Theorem scale_up_frame_appends_waypoints
    (self : Problem) (f : Frame) (b : Border) (wps : list point) :
  scale_up_frame self f = Ok (b, wps) ->
  exists extra, wps = waypoints f ++ extra
    /\ forall q, In q extra ->
         In q (global_path self) /\ point_in_frame q b 0 = true.
Proof.
  intro Hrun. unfold scale_up_frame in Hrun.
  apply bind_Ok in Hrun. destruct Hrun as [[lim1 s1] [_ Hrun]].
  apply bind_Ok in Hrun. destruct Hrun as [[lim2 s2] [_ Hrun]].
  apply bind_Ok in Hrun. destruct Hrun as [[lim3 s3] [_ Hrun]].
  apply bind_Ok in Hrun. destruct Hrun as [[lim4 scaled] [_ Hrun]].
  apply bind_Ok in Hrun. destruct Hrun as [lastp [_ Hrun]].
  apply bind_Ok in Hrun. destruct Hrun as [index [_ Hrun]].
  inversion Hrun; subst. clear Hrun.
  destruct (rescan_loop_extends b (skipn index (global_path self)) (waypoints f))
    as [extra [Hq Hex]].
  exists extra. split; [exact Hq|].
  intros q Hin. destruct (Hex q Hin) as [Hp Hb]. split; [|exact Hb].
  rewrite <- (firstn_skipn index (global_path self)). apply in_or_app. right. exact Hp.
Qed.

(** ** [distance_to_border] and the clearance of a waypoint *)

(** [np.sqrt] is exact on the square of a rational. *)
Definition sqrt_of_square : Prop :=
  forall q a : Q, q == a * a -> np_sqrt q == Qabs a.

(** The four distances of [distance_to_border] for a point inside a
    border with [xmin < xmax] and [ymin < ymax], before the nearer one of
    each pair is chosen. *)
Lemma distance_to_border_sides (p : point) (b : Border) :
  sqrt_of_square ->
  b_xmin b < b_xmax b ->
  b_ymin b < b_ymax b ->
  inside p (limits b) ->
  exists d12 d34 d23 d41,
    distance_to_border p b
    = (if Qabs d12 <? Qabs d34 then d12 else d34,
       if Qabs d23 <? Qabs d41 then d23 else d41)
    /\ d12 == - (fst p - b_xmin b) /\ d34 == b_xmax b - fst p
    /\ d23 == b_ymax b - snd p /\ d41 == - (snd p - b_ymin b).
Proof.
  unfold distance_to_border, inside, b_xmin, b_xmax, b_ymin, b_ymax.
  destruct (limits b) as [[[x2 y2] x3] y3]. destruct p as [px py].
  cbn [fst snd]. intros Hs Hx Hy [[H1 H2] [H3 H4]].
  do 4 eexists. split; [reflexivity|].
  assert (Sv : forall a c, a == y3 - y2 \/ a == y2 - y3 -> c == 0 ->
            np_sqrt (a ^ 2 + c ^ 2) == y3 - y2).
  { intros a c Ha Hc. rewrite (Hs _ a) by (rewrite Hc; ring).
    destruct Ha as [-> | ->]; [apply Qabs_pos; lra|].
    rewrite Qabs_neg by lra. ring. }
  assert (Sh : forall a c, c == x3 - x2 \/ c == x2 - x3 -> a == 0 ->
            np_sqrt (a ^ 2 + c ^ 2) == x3 - x2).
  { intros a c Hc Ha. rewrite (Hs _ c) by (rewrite Ha; ring).
    destruct Hc as [-> | ->]; [apply Qabs_pos; lra|].
    rewrite Qabs_neg by lra. ring. }
  repeat split.
  - rewrite (Sv (y3 - y2) (x2 - x2)) by (try (left; reflexivity); ring).
    setoid_replace ((y3 - y2) * px - (x2 - x2) * py + x2 * y2 - y3 * x2)
      with ((y3 - y2) * (px - x2)) by ring.
    rewrite Qabs_pos by nra. field. lra.
  - rewrite (Sv (y2 - y3) (x3 - x3)) by (try (right; reflexivity); ring).
    setoid_replace ((y2 - y3) * px - (x3 - x3) * py + x3 * y3 - y2 * x3)
      with ((y3 - y2) * (x3 - px)) by ring.
    rewrite Qabs_pos by nra. field. lra.
  - rewrite (Sh (y3 - y3) (x3 - x2)) by (try (left; reflexivity); ring).
    setoid_replace ((y3 - y3) * px - (x3 - x2) * py + x3 * y3 - y3 * x2)
      with ((x3 - x2) * (y3 - py)) by ring.
    rewrite Qabs_pos by nra. field. lra.
  - rewrite (Sh (y2 - y2) (x2 - x3)) by (try (right; reflexivity); ring).
    setoid_replace ((y2 - y2) * px - (x2 - x3) * py + x2 * y2 - y2 * x3)
      with ((x3 - x2) * (py - y2)) by ring.
    rewrite Qabs_pos by nra. field. lra.
Qed.

(** The same with the absolute values worked out. *)
Lemma distance_to_border_abs (p : point) (b : Border) :
  sqrt_of_square ->
  b_xmin b < b_xmax b ->
  b_ymin b < b_ymax b ->
  inside p (limits b) ->
  exists d12 d34 d23 d41,
    distance_to_border p b
    = (if Qabs d12 <? Qabs d34 then d12 else d34,
       if Qabs d23 <? Qabs d41 then d23 else d41)
    /\ (d12 == - (fst p - b_xmin b) /\ d34 == b_xmax b - fst p
        /\ d23 == b_ymax b - snd p /\ d41 == - (snd p - b_ymin b))
    /\ (Qabs d12 == fst p - b_xmin b /\ Qabs d34 == b_xmax b - fst p
        /\ Qabs d23 == b_ymax b - snd p /\ Qabs d41 == snd p - b_ymin b).
Proof.
  intros Hs Hx Hy Hin.
  destruct (distance_to_border_sides p b Hs Hx Hy Hin)
    as [d12 [d34 [d23 [d41 [Hd [E12 [E34 [E23 E41]]]]]]]].
  exists d12, d34, d23, d41. split; [exact Hd|]. split; [tauto|].
  unfold inside, b_xmin, b_xmax, b_ymin, b_ymax in *.
  destruct (limits b) as [[[x2 y2] x3] y3]. destruct Hin as [[H1 H2] [H3 H4]].
  repeat split.
  - rewrite E12, Qabs_opp. apply Qabs_pos. lra.
  - rewrite E34. apply Qabs_pos. lra.
  - rewrite E23. apply Qabs_pos. lra.
  - rewrite E41, Qabs_opp. apply Qabs_pos. lra.
Qed.

(** X16.  For a point inside a border of positive width and height
    [distance_to_border] returns, on each axis, the distance to the nearer
    edge, negative towards the min-edge and positive towards the max-edge;
    at equal distance it takes the max-edge in x and the min-edge in y. *)
Theorem distance_to_border_inside (p : point) (b : Border) :
  sqrt_of_square ->
  b_xmin b < b_xmax b ->
  b_ymin b < b_ymax b ->
  point_in_frame p b 0 = true ->
  fst (distance_to_border p b)
    == (if fst p - b_xmin b <? b_xmax b - fst p
        then - (fst p - b_xmin b) else b_xmax b - fst p)
  /\ snd (distance_to_border p b)
    == (if b_ymax b - snd p <? snd p - b_ymin b
        then b_ymax b - snd p else - (snd p - b_ymin b)).
Proof.
  intros Hs Hx Hy Hin. apply point_in_frame_inside in Hin.
  destruct (distance_to_border_abs p b Hs Hx Hy Hin)
    as [d12 [d34 [d23 [d41 [-> [[E12 [E34 [E23 E41]]] [A12 [A34 [A23 A41]]]]]]]]].
  cbn [fst snd]. split.
  - destruct (Qabs d12 <? Qabs d34) eqn:Ea;
      destruct (fst p - b_xmin b <? b_xmax b - fst p) eqn:Eb; qbool;
      try assumption; exfalso; lra.
  - destruct (Qabs d23 <? Qabs d41) eqn:Ea;
      destruct (b_ymax b - snd p <? snd p - b_ymin b) eqn:Eb; qbool;
      try assumption; exfalso; lra.
Qed.

(** X17.  The reachability correction leaves a terminal waypoint alone
    exactly when it is farther than the vehicle size from all four edges:
    for a point inside the border, no distance is "too close" if and only
    if the point is strictly inside the border shrunk by [veh_size]. *)
Theorem clearance_test_meaning (veh : Q) (p : point) (b : Border) :
  sqrt_of_square ->
  b_xmin b < b_xmax b ->
  b_ymin b < b_ymax b ->
  point_in_frame p b 0 = true ->
  (any_too_close veh (distance_to_border p b) = false
   <-> (b_xmin b + veh < fst p /\ fst p < b_xmax b - veh)
       /\ (b_ymin b + veh < snd p /\ snd p < b_ymax b - veh)).
Proof.
  intros Hs Hx Hy Hin. apply point_in_frame_inside in Hin.
  destruct (distance_to_border_abs p b Hs Hx Hy Hin)
    as [d12 [d34 [d23 [d41 [-> [_ [A12 [A34 [A23 A41]]]]]]]]].
  unfold any_too_close, too_close. cbn [fst snd].
  rewrite orb_false_iff, !Qleb_false.
  destruct (Qabs d12 <? Qabs d34) eqn:Ea; destruct (Qabs d23 <? Qabs d41) eqn:Eb;
    qbool; split; intros; repeat split; lra.
Qed.

(** X18.  Step 6 of the shift builder: for an endpoint inside a border
    that is at least two vehicle sizes wide and high, and not on its
    x-max or y-max edge, the border that [push_border] returns keeps the
    endpoint at least [veh_size] away from all four edges. *)
Theorem push_border_clears_endpoint (veh : Q) (b : Border) (endpoint : point) :
  sqrt_of_square ->
  0 <= veh ->
  2 * veh <= b_xmax b - b_xmin b ->
  2 * veh <= b_ymax b - b_ymin b ->
  b_xmin b < b_xmax b ->
  b_ymin b < b_ymax b ->
  point_in_frame endpoint b 0 = true ->
  fst endpoint < b_xmax b ->
  snd endpoint < b_ymax b ->
  point_in_frame endpoint (push_border veh (limits b) b endpoint) veh = true.
Proof.
  intros Hs Hv Hw Hh Hx Hy Hin Hxm Hym.
  pose proof Hin as Hin0. apply point_in_frame_inside in Hin.
  destruct (distance_to_border_abs endpoint b Hs Hx Hy Hin)
    as [d12 [d34 [d23 [d41 [Hd [[E12 [E34 [E23 E41]]] [A12 [A34 [A23 A41]]]]]]]]].
  unfold push_border. rewrite Hd. cbn [fst snd]. clear Hd.
  unfold inside, b_xmin, b_xmax, b_ymin, b_ymax, too_close in *.
  destruct (limits b) as [[[xmin ymin] xmax] ymax] eqn:El.
  destruct Hin as [[H1 H2] [H3 H4]].
  assert (Hsf : scale_factor == 12 # 10) by reflexivity.
  destruct (Qabs d12 <? Qabs d34) eqn:Ea; destruct (Qabs d23 <? Qabs d41) eqn:Eb;
    repeat match goal with
           | |- context [?a <=? ?c] => destruct (a <=? c) eqn:?
           end;
    unfold point_in_frame; cbn [limits make_border]; rewrite ?El; qbool;
    rewrite !andb_true_iff, !Qleb_true; repeat split; nra.
Qed.

(** ** [move_frame] *)

(** X19.  The shifted frame of [move_frame]: when the current state lies
    in the room, the vehicle size is not negative and the move limit is
    between zero and half the frame size, the returned limits lie within
    the room, still hold the current state, and are at most [frame_size]
    apart on each axis. *)
Theorem move_frame_in_room_holds_state
    (self : Problem) (delta_x delta_y move_limit : Q)
    (xmin ymin xmax ymax : Q) :
  in_room (environment self) (curr_state self) ->
  0 <= veh_size self ->
  0 <= move_limit ->
  move_limit <= frame_size self * 0.5 ->
  move_frame self delta_x delta_y move_limit = (xmin, ymin, xmax, ymax) ->
  inside (curr_state self) (xmin, ymin, xmax, ymax)
  /\ (room_xmin (environment self) <= xmin /\ xmax <= room_xmax (environment self))
  /\ (room_ymin (environment self) <= ymin /\ ymax <= room_ymax (environment self))
  /\ xmax - xmin <= frame_size self
  /\ ymax - ymin <= frame_size self.
Proof.
  intros [[Rx1 Rx2] [Ry1 Ry2]] Hv Hl0 Hl Hm.
  unfold move_frame, environment_limits in Hm.
  assert (Hsf : scale_factor == 12 # 10) by reflexivity.
  set (half := frame_size self * 0.5) in *.
  assert (Hh : frame_size self == 2 * half) by (unfold half; lra).
  set (mx := Qmin move_limit (Qabs delta_x - half + veh_size self * scale_factor)) in *.
  set (my := Qmin move_limit (Qabs delta_y - half + veh_size self * scale_factor)) in *.
  assert (Hmx1 : mx <= move_limit) by apply Q.le_min_l.
  assert (Hmy1 : my <= move_limit) by apply Q.le_min_l.
  assert (Hmx0 : half < Qabs delta_x -> 0 <= mx).
  { intro Hd. apply Q.min_glb; nra. }
  assert (Hmy0 : half < Qabs delta_y -> 0 <= my).
  { intro Hd. apply Q.min_glb; nra. }
  unfold inside. cbn [fst snd].
  destruct (half <? Qabs delta_x) eqn:Ex; [destruct (0 <? delta_x) eqn:Ex0|];
    (destruct (half <? Qabs delta_y) eqn:Ey; [destruct (0 <? delta_y) eqn:Ey0|]);
    cbv beta iota zeta in Hm; cbn [fst snd] in Hm;
    repeat match type of Hm with
           | context [?a <? ?c] => destruct (a <? c) eqn:?
           end;
    injection Hm as <- <- <- <-; qbool;
    try specialize (Hmx0 ltac:(assumption));
    try specialize (Hmy0 ltac:(assumption));
    repeat split; lra.
Qed.

(** ** The waypoint correction and the frames of [create_frame] *)

Lemma far_enough_loop_found (veh : Q) (b : Border) (l : list point) (c count : nat)
    (far : point) :
  far_enough_loop veh b l c = Ok (count, far) ->
  (c <= count)%nat
  /\ nth_error l (count - c) = Some far
  /\ any_too_close veh (distance_to_border far b) = false.
Proof.
  revert c. induction l as [|p rest IH]; intros c Hrun; simpl in Hrun.
  - discriminate.
  - destruct (any_too_close veh (distance_to_border p b)) eqn:Ep.
    + apply IH in Hrun. destruct Hrun as [Hc [Hn Hf]].
      split; [lia|]. split; [|exact Hf].
      replace (count - c)%nat with (S (count - S c)) by lia. exact Hn.
    + injection Hrun as <- <-. split; [lia|]. rewrite Nat.sub_diag. split; [reflexivity|exact Ep].
Qed.

Lemma last_waypoint_app_one (l : list point) (p : point) : last_waypoint (l ++ [p]) = Ok p.
Proof. unfold last_waypoint. rewrite rev_unit. reflexivity. Qed.

(** X20.  Method 2 of the reachability correction, for both builders: a
    successful [move_waypoint] either leaves the waypoints as they are (the
    last one is clear of the border), or keeps a proper, non-empty prefix
    of them that ends in a waypoint clear of the border, and puts one new
    waypoint behind it, computed from that waypoint and the old last
    one. *)
Theorem move_waypoint_keeps_clear_prefix
    (new_waypoint : Q -> Border -> point -> point -> option point)
    (veh : Q) (b : Border) (wps wps' : list point) :
  move_waypoint new_waypoint veh b wps = Ok wps' ->
  exists lastp, last_waypoint wps = Ok lastp
    /\ ((any_too_close veh (distance_to_border lastp b) = false /\ wps' = wps)
        \/ (any_too_close veh (distance_to_border lastp b) = true
            /\ exists n far p,
                 (0 < n < length wps)%nat
                 /\ wps' = firstn n wps ++ [p]
                 /\ last_waypoint (firstn n wps) = Ok far
                 /\ any_too_close veh (distance_to_border far b) = false
                 /\ new_waypoint veh b far lastp = Some p)).
Proof.
  unfold move_waypoint. intro Hrun.
  destruct (last_waypoint wps) as [lastp|e] eqn:El; [|discriminate].
  exists lastp. split; [reflexivity|]. cbn [bind] in Hrun.
  destruct (any_too_close veh (distance_to_border lastp b)) eqn:Ec.
  - right. split; [reflexivity|].
    destruct (far_enough_loop veh b (tl (rev wps)) 1) as [[count far]|e] eqn:Ef;
      [|discriminate]. cbn [bind] in Hrun.
    destruct (new_waypoint veh b far lastp) as [p|] eqn:En; [|discriminate].
    injection Hrun as <-.
    apply far_enough_loop_found in Ef. destruct Ef as [Hc [Hn Hf]].
    rewrite <- nth_error_S in Hn.
    replace (S (count - 1)) with count in Hn by lia.
    rewrite nth_error_rev in Hn.
    destruct (Nat.ltb count (length wps)) eqn:Elt; [|discriminate].
    apply Nat.ltb_lt in Elt.
    exists (length wps - count)%nat, far, p.
    split; [lia|]. split; [reflexivity|]. split; [|split; [exact Hf|exact En]].
    assert (Hsplit : firstn (length wps - count) wps
                     = firstn (length wps - S count) wps ++ [far]).
    { replace (length wps - count)%nat with (S (length wps - S count)) by lia.
      clear - Hn. revert Hn. generalize (length wps - S count)%nat as k.
      induction wps as [|w rest IH]; intros k Hn.
      - destruct k; discriminate.
      - destruct k as [|k].
        + simpl in Hn. injection Hn as ->. reflexivity.
        + simpl in Hn. apply IH in Hn. simpl in *. rewrite Hn. reflexivity. }
    rewrite Hsplit. apply last_waypoint_app_one.
  - left. injection Hrun as <-. split; reflexivity.
Qed.

Lemma move_waypoint_last
    (new_waypoint : Q -> Border -> point -> point -> option point)
    (veh : Q) (b : Border) (wps wps' : list point) :
  move_waypoint new_waypoint veh b wps = Ok wps' ->
  exists lastp, last_waypoint wps' = Ok lastp.
Proof.
  unfold move_waypoint. intro Hrun.
  destruct (last_waypoint wps) as [lastp|e] eqn:El; [|discriminate].
  cbn [bind] in Hrun.
  destruct (any_too_close veh (distance_to_border lastp b)).
  - destruct (far_enough_loop veh b (tl (rev wps)) 1) as [[count far]|e];
      [|discriminate]. cbn [bind] in Hrun.
    destruct (new_waypoint veh b far lastp) as [p|]; [|discriminate].
    injection Hrun as <-. exists p. apply last_waypoint_app_one.
  - injection Hrun as <-. exists lastp. exact El.
Qed.

(** What the builders fill in: the endpoint is the last waypoint, and the
    stationary obstacles are those of the final border; the moving
    obstacles are left to [update_frame]. *)
Definition frame_complete (env : Environment) (f : Frame) : Prop :=
  exists endpoint lastp found,
    endpoint_frame f = Some endpoint
    /\ last_waypoint (waypoints f) = Ok lastp
    /\ pt_eq endpoint lastp
    /\ stationary_obstacles f = Some found
    /\ get_stationary_obstacles_in_frame env (border f) = Ok found
    /\ moving_obstacles f = None.

Lemma pt_eq_refl (p : point) : pt_eq p p.
Proof. split; reflexivity. Qed.

Lemma create_next_frame_complete (self : Problem) (f nf : Frame) :
  create_next_frame self f = Ok (Some nf) ->
  ftype nf = MinNobs /\ frame_complete (environment self) nf.
Proof.
  unfold create_next_frame. intro Hrun.
  destruct (endpoint_frame f) as [endpoint|]; [|discriminate].
  destruct (negb (pt_eqb endpoint (goal_state self))); [|discriminate].
  destruct (get_min_nobs_frame self endpoint) as [next|e]; [|discriminate].
  cbn [bind] in Hrun.
  destruct (scale_up_frame self next) as [[b wps]|e]; [|discriminate].
  cbn [bind] in Hrun.
  destruct (move_waypoint new_waypoint_next (veh_size self) b wps) as [wps'|e];
    [|discriminate]. cbn [bind] in Hrun.
  destruct (get_stationary_obstacles_in_frame (environment self) b) as [found|e] eqn:Es;
    [|discriminate]. cbn [bind] in Hrun.
  destruct (last_waypoint wps') as [lastp|e] eqn:El; [|discriminate].
  cbn [bind] in Hrun. injection Hrun as <-. split; [reflexivity|].
  exists lastp, lastp, found. cbn.
  repeat split; try reflexivity; assumption.
Qed.

Lemma create_frame_min_nobs_complete (self : Problem) (f : Frame) (nf : option Frame) :
  create_frame_min_nobs self = Ok (f, nf) ->
  (ftype f = MinNobs /\ frame_complete (environment self) f)
  /\ (forall f', nf = Some f' ->
        ftype f' = MinNobs /\ frame_complete (environment self) f').
Proof.
  unfold create_frame_min_nobs. intro Hrun.
  destruct (get_min_nobs_frame self (curr_state self)) as [f0|e]; [|discriminate].
  cbn [bind] in Hrun.
  destruct (scale_up_frame self f0) as [[b wps]|e]; [|discriminate].
  cbn [bind] in Hrun.
  destruct (move_waypoint new_waypoint_create (veh_size self) b wps) as [wps'|e];
    [|discriminate]. cbn [bind] in Hrun.
  destruct (get_stationary_obstacles_in_frame (environment self) b) as [found|e] eqn:Es;
    [|discriminate]. cbn [bind] in Hrun.
  destruct (last_waypoint wps') as [lastp|e] eqn:El; [|discriminate].
  cbn [bind] in Hrun.
  match type of Hrun with
  | context [create_next_frame self ?g] =>
      destruct (create_next_frame self g) as [next|e] eqn:En; [|discriminate]
  end.
  cbn [bind] in Hrun. injection Hrun as <- <-. split.
  - split; [reflexivity|]. exists lastp, lastp, found. cbn.
    repeat split; try reflexivity; assumption.
  - intros f' ->. exact (create_next_frame_complete _ _ _ En).
Qed.

Lemma create_frame_shift_complete (self : Problem) (f : Frame) :
  create_frame_shift self = Ok f ->
  ftype f = Shift /\ frame_complete (environment self) f.
Proof.
  unfold create_frame_shift. intro Hrun.
  match type of Hrun with
  | bind ?c _ = _ => destruct c as [[[lim b] endpoint]|e]; [|discriminate]
  end.
  cbn [bind] in Hrun.
  match type of Hrun with
  | bind ?c _ = _ => destruct c as [found|e] eqn:Es; [|discriminate]
  end.
  cbn [bind] in Hrun.
  match type of Hrun with
  | match ?l with [] => _ | _ :: _ => _ end = _ =>
      destruct l as [|w ws] eqn:Ew; [discriminate|]
  end.
  destruct (last_waypoint (w :: ws)) as [lastp|e] eqn:El; [|discriminate].
  cbn [bind] in Hrun. injection Hrun as <-. split; [reflexivity|].
  destruct (pt_eqb endpoint lastp) eqn:Ee; cbn [negb].
  - exists endpoint, lastp, found. cbn.
    apply pt_eqb_true in Ee. repeat split; try reflexivity; try assumption; apply Ee.
  - exists endpoint, endpoint, found.
    cbn [endpoint_frame waypoints stationary_obstacles border moving_obstacles].
    pose proof (last_waypoint_app_one (w :: ws) endpoint) as Hlast. repeat split; try reflexivity; assumption.
Qed.

(** X21.  What [create_frame] leaves behind.  The new frame keeps the
    type, its endpoint is its last waypoint, its stationary obstacles are
    those the query finds in its final border, and its moving obstacles are
    not set; nothing else of the problem changes.  The shift branch leaves
    [next_frame] as it was; the min-nobs branch sets it, to a frame of the
    same kind or to [None]. *)
Theorem create_frame_fills_frame (self made : Problem) :
  create_frame self = Ok made ->
  ftype (frame made) = ftype (frame self)
  /\ frame_complete (environment made) (frame made)
  /\ (curr_state made = curr_state self /\ goal_state made = goal_state self
      /\ global_path made = global_path self /\ environment made = environment self
      /\ motion_time made = motion_time self)
  /\ match ftype (frame self) with
     | Shift => next_frame made = next_frame self
     | MinNobs =>
         exists nf, next_frame made = Some nf
           /\ forall f', nf = Some f' ->
                ftype f' = MinNobs /\ frame_complete (environment made) f'
     | OtherType => False
     end.
Proof.
  unfold create_frame. intro Hrun.
  destruct (ftype (frame self)) eqn:Et; [| |discriminate].
  - destruct (create_frame_shift self) as [f|e] eqn:Ef; [|discriminate].
    cbn [bind] in Hrun. injection Hrun as <-.
    destruct (create_frame_shift_complete _ _ Ef) as [Hty Hc]. cbn.
    repeat split; try reflexivity; assumption.
  - destruct (create_frame_min_nobs self) as [[f nf]|e] eqn:Ef; [|discriminate].
    cbn [bind] in Hrun. injection Hrun as <-.
    destruct (create_frame_min_nobs_complete _ _ _ Ef) as [[Hty Hc] Hn]. cbn.
    split; [exact Hty|]. split; [exact Hc|]. split; [repeat split; reflexivity|].
    exists nf. split; [reflexivity|exact Hn].
Qed.



(** ** The waypoints of a shift frame *)

(** Within [reach] of the current state on both axes. *)
Definition near_state (self : Problem) (reach : Q) (w : point) : Prop :=
  Qabs (fst w - fst (curr_state self)) <= reach
  /\ Qabs (snd w - snd (curr_state self)) <= reach.

Lemma shift_scan_loop_points (self : Problem) (b : Border) (move_limit : Q) (goal : point)
    (pts : list point) (st : ShiftScan) (w : point) :
  0 <= move_limit ->
  limits b = (fst (curr_state self) - frame_size self * 0.5,
              snd (curr_state self) - frame_size self * 0.5,
              fst (curr_state self) + frame_size self * 0.5,
              snd (curr_state self) + frame_size self * 0.5) ->
  In w (scan_points (shift_scan_loop self b move_limit goal pts st)) ->
  In w (scan_points st)
  \/ (In w pts /\ near_state self (move_limit + frame_size self * 0.5) w).
Proof.
  intros Hml Hb. revert st. induction pts as [|p rest IH]; intros st Hin; simpl in Hin.
  - left. exact Hin.
  - destruct (point_in_frame p b 0) eqn:Ep; cbn [negb] in Hin.
    + apply IH in Hin. cbn [scan_points] in Hin.
      destruct Hin as [Hin|[Hin Hn]]; [|right; split; [right; exact Hin|exact Hn]].
      apply in_app_or in Hin. destruct Hin as [Hin|[<-|[]]]; [left; exact Hin|].
      right. split; [left; reflexivity|].
      apply point_in_frame_inside in Ep. rewrite Hb in Ep.
      destruct Ep as [[H1 H2] [H3 H4]]. cbn [fst snd] in *.
      split; apply Qabs_Qle_condition; split; lra.
    + match type of Hin with
      | context [if ?c then _ else _] => destruct c eqn:Efar
      end.
      * left. exact Hin.
      * apply orb_false_iff in Efar. destruct Efar as [Ex Ey]. qbool.
        destruct (pt_eqb p goal).
        -- apply IH in Hin. cbn [scan_points] in Hin.
           destruct Hin as [Hin|[Hin Hn]]; [left; exact Hin|].
           right. split; [right; exact Hin|exact Hn].
        -- apply IH in Hin. cbn [scan_points] in Hin.
           destruct Hin as [Hin|[Hin Hn]]; [|right; split; [right; exact Hin|exact Hn]].
           apply in_app_or in Hin. destruct Hin as [Hin|[<-|[]]]; [left; exact Hin|].
           right. split; [left; reflexivity|]. split; assumption.
Qed.

(** X23.  The waypoints of a shift frame are collected before the frame
    is moved, so they need not lie in its border; but each of them other
    than the endpoint is a point of the global path at most three
    quarters of the frame size from the current state, on both axes. *)
Theorem shift_frame_waypoints_within_reach (self : Problem) (f : Frame) (w : point) :
  0 <= frame_size self ->
  create_frame_shift self = Ok f ->
  In w (waypoints f) ->
  endpoint_frame f = Some w
  \/ (In w (global_path self) /\ near_state self (frame_size self * 0.75) w).
Proof.
  intros Hfs Hrun Hin. unfold create_frame_shift in Hrun.
  match type of Hrun with
  | bind ?c _ = _ => destruct c as [[[lim b] endpoint]|e]; [|discriminate]
  end.
  cbn [bind] in Hrun.
  match type of Hrun with
  | bind ?c _ = _ => destruct c as [found|e]; [|discriminate]
  end.
  cbn [bind] in Hrun.
  match type of Hrun with
  | match ?l with [] => _ | _ :: _ => _ end = _ =>
      remember l as pts eqn:Epts; destruct pts as [|w0 ws]; [discriminate|]
  end.
  destruct (last_waypoint (w0 :: ws)) as [lastp|e]; [|discriminate].
  cbn [bind] in Hrun. injection Hrun as <-.
  cbn [waypoints endpoint_frame] in *.
  assert (Hscan : In w (w0 :: ws) \/ w = endpoint).
  { destruct (negb (pt_eqb endpoint lastp)); [|left; exact Hin].
    apply (in_app_or (w0 :: ws) [endpoint]) in Hin. destruct Hin as [Hin|[<-|[]]]; [left; exact Hin|right; reflexivity]. }
  destruct Hscan as [Hscan| ->]; [|left; reflexivity]. right.
  rewrite Epts in Hscan.
  destruct (last (map Some (global_path self)) None) as [goal|]; [|destruct Hscan].
  apply shift_scan_loop_points in Hscan.
  - destruct Hscan as [[]|[Hp [Hx Hy]]]. split; [exact Hp|]. split; lra.
  - lra.
  - reflexivity.
Qed.

(** ** The initial guess *)

Lemma last_cons_self {A : Type} (l : list A) (x d : A) : last (x :: l) d = last l x.
Proof.
  destruct l as [|y rest]; [reflexivity|].
  change (last (x :: y :: rest) d) with (last (y :: rest) d).
  apply last_default. discriminate.
Qed.

Lemma total_length_net (wps : list point) (p : point) (l : Q * Q) :
  fst (total_length (p :: wps) l) == fst l + (fst (last wps p) - fst p)
  /\ snd (total_length (p :: wps) l) == snd l + (snd (last wps p) - snd p).
Proof.
  revert p l. induction wps as [|q rest IH]; intros p l.
  - simpl. split; lra.
  - change (total_length (p :: q :: rest) l)
      with (total_length (q :: rest) (fst l + (fst q - fst p), snd l + (snd q - snd p))).
    destruct (IH q (fst l + (fst q - fst p), snd l + (snd q - snd p))) as [Hx Hy].
    cbn [fst snd] in Hx, Hy.
    rewrite (last_cons_self rest q p). split; lra.
Qed.

(** X24.  The "length to travel" of [get_init_guess] is not the length
    of the path over the waypoints: the sums [l_x] and [l_y] telescope to
    the displacement from the current state to the last waypoint. *)
Theorem init_guess_length_is_net_displacement (self : Problem) (wps wps' : list point) :
  start_at_state self wps = Ok wps' ->
  exists lastp,
    last_waypoint wps' = Ok lastp
    /\ fst (total_length wps' (0, 0)) == fst lastp - fst (curr_state self)
    /\ snd (total_length wps' (0, 0)) == snd lastp - snd (curr_state self).
Proof.
  unfold start_at_state. destruct wps as [|w rest]; [discriminate|].
  intro Hs. injection Hs as <-.
  exists (last rest (curr_state self)). split.
  - rewrite (last_waypoint_nonempty _ (curr_state self)) by reflexivity.
    rewrite last_cons_self. reflexivity.
  - pose proof (total_length_net rest (curr_state self) (0, 0)) as [Hx Hy].
    cbn [fst snd] in Hx, Hy. split; lra.
Qed.













(** ** [update_frame] and the local problem *)

(** The problem after lines 562-563: the path planned anew, with the goal
    appended. *)
Definition replanned (self : Problem) (planned : list point) : Problem :=
  {| curr_state := curr_state self;
     goal_state := goal_state self;
     veh_size := veh_size self;
     frame_size := frame_size self;
     global_path := planned ++ [goal_state self];
     environment := environment self;
     motion_time := motion_time self;
     frame := frame self;
     next_frame := next_frame self |}.

(** The frame after [get_init_guess] and the moving-obstacle query. *)
Definition updated_frame (f : Frame) (guess : InitGuess) (moving : list nat) : Frame :=
  {| ftype := ftype f;
     border := border f;
     waypoints := guess_waypoints guess;
     endpoint_frame := endpoint_frame f;
     stationary_obstacles := stationary_obstacles f;
     moving_obstacles := Some moving |}.

Lemma update_frame_steps (self : Problem) (veh : Vehicle) (planned : list point)
    (moving_obs : option (list nat)) (next_frame_arg : option Frame)
    (self' : Problem) (moving : list nat) :
  update_frame self veh planned moving_obs next_frame_arg = Ok (self', moving) ->
  exists self1 guess obs changed,
    match next_frame_arg with
    | Some next =>
        exists new_frame f,
          create_next_frame (replanned self planned) next = Ok new_frame
          /\ next_frame self = Some (Some f)
          /\ self1 = set_frames (replanned self planned) f (Some new_frame)
    | None => create_frame (replanned self planned) = Ok self1
    end
    /\ get_init_guess self1 veh = Ok guess
    /\ get_moving_obstacles_in_frame (obstacles (environment self1)) (border (frame self1))
         (guess_motion_time guess) moving_obs = Ok (obs, (moving, changed))
    /\ frame self' = updated_frame (frame self1) guess moving
    /\ obstacles (environment self') = obs
    /\ global_path self' = global_path self1
    /\ goal_state self' = goal_state self1
    /\ next_frame self' = next_frame self1
    /\ motion_time self' = guess_motion_time guess.
Proof.
  unfold update_frame. fold (replanned self planned). intro Hrun.
  apply bind_Ok in Hrun. destruct Hrun as [self1 [Hstep Hrun]].
  apply bind_Ok in Hrun. destruct Hrun as [guess [Hguess Hrun]].
  apply bind_Ok in Hrun. destruct Hrun as [[obs [moving' changed]] [Hmov Hrun]].
  injection Hrun as <- <-.
  exists self1, guess, obs, changed. split.
  - destruct next_frame_arg as [next|]; [|exact Hstep].
    apply bind_Ok in Hstep. destruct Hstep as [new_frame [Hnew Hstep]].
    change (next_frame (replanned self planned)) with (next_frame self) in Hstep.
    destruct (next_frame self) as [[f|]|]; try discriminate.
    injection Hstep as <-. exists new_frame, f. repeat split; assumption.
  - repeat split; assumption.
Qed.

Lemma get_init_guess_waypoints (self : Problem) (veh : Vehicle) (guess : InitGuess) :
  get_init_guess self veh = Ok guess ->
  start_at_state self (waypoints (frame self)) = Ok (guess_waypoints guess).
Proof.
  unfold get_init_guess. intro Hrun.
  apply bind_Ok in Hrun. destruct Hrun as [wps [Hs Hrun]]. rewrite Hs. f_equal.
  destruct (total_length wps (0, 0)) as [l_x l_y].
  apply bind_Ok in Hrun. destruct Hrun as [lastp [_ Hrun]].
  destruct (negb (holonomic veh)).
  - apply bind_Ok in Hrun. destruct Hrun as [terminal [_ Hrun]].
    injection Hrun as <-. reflexivity.
  - apply bind_Ok in Hrun. destruct Hrun as [times [_ Hrun]].
    injection Hrun as <-. reflexivity.
Qed.

(** X26.  [update_frame] with a next frame: the frame kept in
    [self.next_frame] becomes the current one, with its border, endpoint
    and stationary obstacles as they were and only its first waypoint set
    to the current state; the next frame after it is built over the newly
    planned path, which ends in the goal. *)
Theorem update_frame_promotes_next_frame
    (self : Problem) (veh : Vehicle) (planned : list point)
    (moving_obs : option (list nat)) (next : Frame)
    (self' : Problem) (moving : list nat) :
  update_frame self veh planned moving_obs (Some next) = Ok (self', moving) ->
  exists f new_frame,
    next_frame self = Some (Some f)
    /\ ftype (frame self') = ftype f
    /\ border (frame self') = border f
    /\ endpoint_frame (frame self') = endpoint_frame f
    /\ stationary_obstacles (frame self') = stationary_obstacles f
    /\ (exists first rest,
          waypoints f = first :: rest
          /\ waypoints (frame self') = curr_state self :: rest)
    /\ global_path self' = planned ++ [goal_state self]
    /\ create_next_frame (replanned self planned) next = Ok new_frame
    /\ next_frame self' = Some new_frame.
Proof.
  intro Hrun. apply update_frame_steps in Hrun.
  destruct Hrun as [self1 [guess [obs [changed
    [[new_frame [f [Hnew [Hnf ->]]]] [Hguess [_ [Hf [_ [Hp [_ [Hn _]]]]]]]]]]]].
  exists f, new_frame. rewrite Hf, Hp, Hn. cbn.
  apply get_init_guess_waypoints in Hguess. cbn in Hguess.
  unfold start_at_state in Hguess.
  destruct (waypoints f) as [|first rest]; [discriminate|].
  injection Hguess as <-.
  repeat split; try assumption; try reflexivity.
  exists first, rest. split; reflexivity.
Qed.

Lemma create_frame_complete (self made : Problem) :
  create_frame self = Ok made ->
  frame_complete (environment self) (frame made)
  /\ environment made = environment self
  /\ goal_state made = goal_state self.
Proof.
  unfold create_frame. intro Hrun.
  destruct (ftype (frame self)); [| |discriminate].
  - destruct (create_frame_shift self) as [f|e] eqn:Ef; [|discriminate].
    cbn [bind] in Hrun. injection Hrun as <-.
    destruct (create_frame_shift_complete _ _ Ef) as [_ Hc]. cbn. auto.
  - destruct (create_frame_min_nobs self) as [[f nf]|e] eqn:Ef; [|discriminate].
    cbn [bind] in Hrun. injection Hrun as <-.
    destruct (create_frame_min_nobs_complete _ _ _ Ef) as [[_ Hc] _]. cbn. auto.
Qed.

(** [update_frame] without a next frame leaves the type, the border and
    the endpoint of the frame [create_frame] builds over the new path; it
    rewrites the first waypoint and sets the moving obstacles. *)
Lemma update_frame_keeps_built_frame
    (self : Problem) (veh : Vehicle) (planned : list point)
    (moving_obs : option (list nat)) (self' : Problem) (moving : list nat) :
  update_frame self veh planned moving_obs None = Ok (self', moving) ->
  exists made,
    create_frame (replanned self planned) = Ok made
    /\ ftype (frame self') = ftype (frame made)
    /\ border (frame self') = border (frame made)
    /\ endpoint_frame (frame self') = endpoint_frame (frame made)
    /\ moving_obstacles (frame self') = Some moving
    /\ goal_state self' = goal_state self.
Proof.
  intro Hrun. apply update_frame_steps in Hrun.
  destruct Hrun as [made [guess [obs [changed
    [Hmade [_ [_ [Hf [_ [_ [Hg _]]]]]]]]]]].
  exists made. split; [exact Hmade|]. rewrite Hf, Hg. cbn.
  apply create_frame_complete in Hmade. destruct Hmade as [_ [_ Hgoal]].
  repeat split; try reflexivity. exact Hgoal.
Qed.

(** X27.  From [update_frame] (without a next frame) to
    [generate_problem]: the local problem can be generated, its room is
    the frame's border, its final-velocity constraint is set exactly when
    the frame's endpoint is the goal, and the obstacles handed to it are
    the ones at rest (by their simulated trajectory) that meet the border,
    together with all that move (by their current velocity).  So an
    obstacle that is neither, one that stands still on a trajectory with
    velocity, is in no local problem. *)
Theorem update_frame_local_obstacles
    (self : Problem) (veh : Vehicle) (planned : list point)
    (moving_obs : option (list nat)) (self' : Problem) (moving : list nat) :
  update_frame self veh planned moving_obs None = Ok (self', moving) ->
  exists lp endpoint,
    generate_problem self' = Ok lp
    /\ local_room_shape lp = border_shape (border (frame self'))
    /\ local_room_position lp = border_position (border (frame self'))
    /\ endpoint_frame (frame self') = Some endpoint
    /\ final_velocity_constraint lp = pt_eqb endpoint (goal_state self)
    /\ forall i, In i (local_obstacles lp) <->
         exists o, nth_error (obstacles (environment self)) i = Some o
           /\ ((is_stationary o = true /\ overlaps (border (frame self')) o = true)
               \/ is_moving o = true).
Proof.
  intro Hrun. apply update_frame_steps in Hrun.
  destruct Hrun as [self1 [guess [obs [changed
    [Hmade [_ [Hmov [Hf [_ [_ [Hg _]]]]]]]]]]].
  apply create_frame_complete in Hmade.
  destruct Hmade as [[endpoint [lastp [found [He [_ [_ [Hs [Hq _]]]]]]]] [Henv Hgoal]].
  cbn in Henv, Hgoal, Hq. rewrite Henv in Hmov.
  unfold get_moving_obstacles_in_frame in Hmov.
  apply bind_Ok in Hmov. destruct Hmov as [[[obs1 moving1] c1] [Hloop Hmov]].
  injection Hmov as <- <- _.
  destruct (moving_loop_positions _ _ _ _ _ _ _ _ Hloop) as [-> _].
  unfold generate_problem. rewrite Hf, Hg, Hgoal. cbn. rewrite Hs, He.
  eexists _, endpoint. split; [reflexivity|]. cbn.
  repeat split; try reflexivity.
  - intro Hin. apply in_app_or in Hin. destruct Hin as [Hin|Hin].
    + apply (stationary_loop_In _ _ _ _ i Hq) in Hin.
      destruct Hin as [o [_ [Hn [Hst Hov]]]]. rewrite Nat.sub_0_r in Hn.
      exists o. split; [exact Hn|]. left. split; assumption.
    + apply moving_positions_In in Hin.
      destruct Hin as [o [_ [Hn Hm]]]. rewrite Nat.sub_0_r in Hn.
      exists o. split; [exact Hn|]. right. exact Hm.
  - intros [o [Hn [[Hst Hov]|Hm]]]; apply in_or_app.
    + left. apply (stationary_loop_In _ _ _ _ i Hq).
      exists o. rewrite Nat.sub_0_r. repeat split; try assumption. lia.
    + right. apply moving_positions_In.
      exists o. rewrite Nat.sub_0_r. repeat split; try assumption. lia.
Qed.

End Engine.

(** ** An instance of the imports, for closed examples *)

(** [np.sqrt] on a non-negative rational: exact when numerator and
    denominator of the reduced fraction are squares, and otherwise rounded
    down at sixteen decimals of the denominator. *)
Definition Qsqrt (q : Q) : Q :=
  let r := Qred q in
  let n := Qnum r in
  let d := Zpos (Qden r) in
  if ((Z.sqrt n * Z.sqrt n =? n)%Z && (Z.sqrt d * Z.sqrt d =? d)%Z)%bool
  then Z.sqrt n # Z.to_pos (Z.sqrt d)
  else Z.sqrt (n * d * 10 ^ 32) # Z.to_pos (d * 10 ^ 16).

(** The angle of [np.arctan2(y, x)] is kept as the pair [(y, x)]: its
    cosine, sine and tangent are then quotients of [y], [x] and the length
    of [(x, y)]; [arctan2(0, 0)] is the angle zero. *)
Definition exact_cos (a : Q * Q) : Q :=
  let '(y, x) := a in
  if (x =? 0) && (y =? 0) then 1 else x / Qsqrt (x * x + y * y).

Definition exact_sin (a : Q * Q) : Q :=
  let '(y, x) := a in
  if (x =? 0) && (y =? 0) then 0 else y / Qsqrt (x * x + y * y).

Definition exact_tan (a : Q * Q) : Q := let '(y, x) := a in y / x.

(** Modelled from the spec: [distance_between_points] of [basics.geometry]
    is missing; the spec calls it the "straight-line distance" between two
    points. *)
Definition euclidean_distance (p q : point) : Q :=
  Qsqrt ((fst p - fst q) ^ 2 + (snd p - snd q) ^ 2).

(** Modelled from the spec: [intersect_lines] and
    [intersect_line_segments] of [basics.geometry] are missing; the spec
    calls them the "standard 2D segment/line intersection", the first on
    infinite lines, the second on bounded segments. *)
Definition cross (o a b : point) : Q :=
  (fst a - fst o) * (snd b - snd o) - (snd a - snd o) * (fst b - fst o).

Definition exact_intersect_line_segments (l1 l2 : line) : bool :=
  let '(a, b) := l1 in
  let '(c, d) := l2 in
  (cross a b c * cross a b d <=? 0) && (cross c d a * cross c d b <=? 0).

Definition exact_intersect_lines (l1 l2 : line) : point :=
  let '(a, b) := l1 in
  let '(c, d) := l2 in
  let den := (fst a - fst b) * (snd c - snd d) - (snd a - snd b) * (fst c - fst d) in
  let ab := fst a * snd b - snd a * fst b in
  let cd := fst c * snd d - snd c * fst d in
  ((ab * (fst c - fst d) - (fst a - fst b) * cd) / den,
   (ab * (snd c - snd d) - (snd a - snd b) * cd) / den).

(** Modelled from the spec: [get_checkpoints] and [rotate] of
    [basics.shape] are missing; the spec takes for checkpoints the
    "vertices of its bounding box" (a circle has its centre only) and
    rotates them by the shape's orientation.  The rotation uses the
    seventh-order Taylor polynomials of sine and cosine. *)
Definition exact_get_checkpoints (s : Shape) : list point :=
  match s with
  | Circle _ => [(0, 0)]
  | Rectangle w h _ =>
      [(- (w / 2), - (h / 2)); (- (w / 2), h / 2); (w / 2, h / 2); (w / 2, - (h / 2))]
  end.

Definition exact_rotate (theta : Q) (p : point) : point :=
  let c := 1 - theta ^ 2 / 2 + theta ^ 4 / 24 - theta ^ 6 / 720 in
  let s := theta - theta ^ 3 / 6 + theta ^ 5 / 120 - theta ^ 7 / 5040 in
  (c * fst p - s * snd p, s * fst p + c * snd p).

#[local] Instance exact_imports : Imports := {|
  angle := (Q * Q)%type;
  np_sqrt := Qsqrt;
  np_arctan2 := fun y x => (y, x);
  np_cos := exact_cos;
  np_sin := exact_sin;
  np_tan := exact_tan;
  distance_between_points := euclidean_distance;
  intersect_lines := exact_intersect_lines;
  intersect_line_segments := exact_intersect_line_segments;
  get_checkpoints := exact_get_checkpoints;
  rotate := exact_rotate
|}.

Example Qsqrt_square : Qsqrt ((5 # 2) * (5 # 2)) == 5 # 2.
Proof. reflexivity. Qed.

Example Qsqrt_two : Qabs (Qsqrt 2 * Qsqrt 2 - 2) <= 1 # 1000000000000000.
Proof. vm_compute. discriminate. Qed.

(** [Qsqrt] is exact on every square. *)
Lemma Qred_square (a : Q) :
  Qred (a * a) = (Qnum (Qred a) * Qnum (Qred a) # Qden (Qred a) * Qden (Qred a)).
Proof.
  rewrite (Qred_complete (a * a) (Qred a * Qred a))
    by (rewrite (Qred_correct a); reflexivity).
  pose proof (gcd_Qred a) as Hg.
  destruct (Qred a) as [m e]. cbn [Qnum Qden] in *.
  change ((m # e) * (m # e)) with (m * m # e * e).
  apply Qred_identity. cbn [Qnum Qden]. rewrite Pos2Z.inj_mul.
  apply Z.coprime_mul_l; apply Z.coprime_mul_r; assumption.
Qed.

Lemma Qsqrt_exact (q a : Q) : q == a * a -> Qsqrt q == Qabs a.
Proof.
  intro Hq. unfold Qsqrt.
  rewrite (Qred_complete q (a * a) Hq), Qred_square.
  rewrite <- (Qabs_wd _ _ (Qred_correct a)).
  destruct (Qred a) as [m e]. cbn [Qnum Qden].
  assert (Hm : (Z.sqrt (m * m) = Z.abs m)%Z).
  { rewrite <- Z.abs_square. apply Z.sqrt_square. lia. }
  assert (He : (Z.sqrt (Zpos (e * e)) = Zpos e)%Z).
  { rewrite Pos2Z.inj_mul. apply Z.sqrt_square. lia. }
  rewrite Hm, He.
  assert (E1 : (Z.abs m * Z.abs m =? m * m)%Z = true) by (apply Z.eqb_eq; lia).
  assert (E2 : (Zpos e * Zpos e =? Zpos (e * e))%Z = true) by (apply Z.eqb_eq; lia).
  rewrite E1, E2. simpl. reflexivity.
Qed.

Lemma exact_sqrt_of_square : sqrt_of_square.
Proof. intros q a Hq. apply Qsqrt_exact. exact Hq. Qed.


(** ** The vehicle envelope *)


(** ** Closed runs of the moving-obstacle query *)

(** The frame of the specification's scenario: the border [4,6] x [4,6],
    looked at over a motion time of 2. *)
Definition scenario_border : Border := make_border 4 4 6 6.

(** A disc moving to the right, far from the frame, so far avoided. *)
Definition far_obstacle : Obstacle :=
  {| obs_shape := Circle 0.5;
     sim_velocity := Some [(1, 0)];
     signals_position := (20, 20);
     signals_velocity := (1, 0);
     avoid := true |}.

(** A disc moving to the right through the frame, so far avoided. *)
Definition near_obstacle : Obstacle :=
  {| obs_shape := Circle 0.5;
     sim_velocity := Some [(1, 0)];
     signals_position := (5, 5);
     signals_velocity := (1, 0);
     avoid := true |}.

(** Whether some obstacle's avoid flag differs before and after a call. *)
Definition avoid_flipped (before after : list Obstacle) : bool :=
  existsb (fun oo => negb (eqb (avoid (fst oo)) (avoid (snd oo)))) (combine before after).

(** C3 on a concrete call.  With two moving obstacles known from the
    previous call, the first one leaves the frame (its flag flips to
    off) and the second one stays in it: the second obstacle's hit
    overwrites [obs_change] with [False], and the call returns
    [changed == False] although a flag was flipped. *)
Theorem moving_query_forgets_earlier_flip :
  get_moving_obstacles_in_frame [far_obstacle; near_obstacle] scenario_border 2
    (Some [0%nat; 1%nat])
  = Ok ([set_avoid far_obstacle false; near_obstacle], ([0%nat; 1%nat], false))
  /\ avoid_flipped [far_obstacle; near_obstacle]
       [set_avoid far_obstacle false; near_obstacle] = true.
Proof. split; vm_compute; reflexivity. Qed.

(** C4, as stated, fails: the far obstacle never comes near the frame
    within the motion time, and the query returns it all the same. *)
Lemma moving_query_returns_far_obstacle :
  get_moving_obstacles_in_frame [far_obstacle] scenario_border 2 None
  = Ok ([set_avoid far_obstacle false], ([0%nat], true))
  /\ swept_into_frame scenario_border 2 far_obstacle = Ok false.
Proof. split; vm_compute; reflexivity. Qed.

Lemma moving_query_returns_all_moving_witness :
  (forall i, In i [0%nat] <->
     exists o, nth_error [far_obstacle] i = Some o /\ is_moving o = true)
  /\ (forall i o, nth_error [far_obstacle] i = Some o -> is_moving o = true ->
        nonempty (obs_chck (obs_shape o)) = true ->
        exists o', nth_error [set_avoid far_obstacle false] i = Some o'
                   /\ swept_into_frame scenario_border 2 o = Ok (avoid o')).
Proof.
  apply (moving_query_returns_all_moving [far_obstacle] [set_avoid far_obstacle false]
           scenario_border 2 None [0%nat] true).
  vm_compute. reflexivity.
Defined.

Lemma moving_query_twice_unchanged_witness :
  get_moving_obstacles_in_frame [set_avoid far_obstacle false; near_obstacle]
    scenario_border 2 (Some [0%nat; 1%nat])
  = Ok ([set_avoid far_obstacle false; near_obstacle], ([0%nat; 1%nat], false)).
Proof.
  apply (moving_query_twice_unchanged [far_obstacle; near_obstacle] _ scenario_border 2
           (Some [0%nat; 1%nat]) _ false).
  vm_compute. reflexivity.
Defined.

Lemma shift_point_back_clamps_to_start_witness :
  exists p, shift_point_back (0, 0) (1, 0) 0 2 = Ok p /\ pt_eq p (0, 0).
Proof.
  apply shift_point_back_clamps_to_start.
  - reflexivity.
  - vm_compute. discriminate.
Defined.

(** ** Closed runs of the frame builders *)

(** A frame dictionary before [create_frame] has run: only its type is
    set; the other fields are placeholders. *)
Definition blank_frame (t : FrameType) : Frame :=
  {| ftype := t;
     border := make_border 0 0 0 0;
     waypoints := [];
     endpoint_frame := None;
     stationary_obstacles := None;
     moving_obstacles := None |}.

(** The square frame [0,10] x [0,10]. *)
Definition square_border : Border := make_border 0 0 10 10.

(** C6 on the scenario of the specification: the terminal waypoint
    [(9.9, 5)] is 0.1 from the x-max border of [square_border], the vehicle
    size is 0.3 and the waypoint before it is [(5, 5)].  The correction of
    [create_frame] puts the terminal waypoint back on [(5, 5)], at distance
    5 from the border instead of [0.3 * scale_factor]; the correction of
    [create_next_frame] puts it at [(9.64, 5)], at that distance
    exactly.  (The run takes the tangent of a right angle, a quotient by
    zero; by [create_frame_correction_horizontal] the x-coordinate is the
    same for every value of the tangent.) *)
Theorem create_frame_correction_misses_distance :
  (exists p, move_waypoint new_waypoint_create 0.3 square_border [(5, 5); (9.9, 5)]
             = Ok [(5, 5); p]
             /\ pt_eq p (5, 5)
             /\ b_xmax square_border - fst p == 5
             /\ ~ b_xmax square_border - fst p == 0.3 * scale_factor)
  /\ (exists p, move_waypoint new_waypoint_next 0.3 square_border [(5, 5); (9.9, 5)]
                = Ok [(5, 5); p]
                /\ b_xmax square_border - fst p == 0.3 * scale_factor).
Proof.
  split.
  - eexists. split; [vm_compute; reflexivity|].
    repeat split; try reflexivity. intro Hq. vm_compute in Hq. discriminate.
  - eexists. split; [vm_compute; reflexivity|]. reflexivity.
Qed.

(** The same with the waypoint before the last at [(5, 4)]: the line to
    [(9.9, 5)] is not horizontal, and the correction of [create_frame]
    leaves the frame altogether. *)
Example create_frame_correction_leaves_frame :
  exists p, move_waypoint new_waypoint_create 0.3 square_border [(5, 4); (9.9, 5)]
            = Ok [(5, 4); p]
            /\ point_in_frame p square_border 0 = false.
Proof. eexists. split; vm_compute; reflexivity. Qed.

(** A thin block standing against the right wall of a 10 x 10 room. *)
Definition wall_block : Obstacle :=
  {| obs_shape := Rectangle 0.03 1 0;
     sim_velocity := None;
     signals_position := (9.975, 5);
     signals_velocity := (0, 0);
     avoid := true |}.

(** A vehicle of size 0.25 at [(9.55, 5)], 0.45 from the right wall, on
    its way to [(9.55, 8)]. *)
Definition near_wall : Problem :=
  {| curr_state := (9.55, 5);
     goal_state := (9.55, 8);
     veh_size := 0.25;
     frame_size := 2.5;
     global_path := [(9.55, 5); (9.55, 8)];
     environment := {| room_width := 10;
                       room_height := 10;
                       room_position := (5, 5);
                       obstacles := [wall_block] |};
     motion_time := 0;
     frame := blank_frame MinNobs;
     next_frame := None |}.

(** Equality of the four limits of a border, up to [Qeq]. *)
Definition has_limits (b : Border) (xmin ymin xmax ymax : Q) : Prop :=
  b_xmin b == xmin /\ b_ymin b == ymin /\ b_xmax b == xmax /\ b_ymax b == ymax.

(** C1 on a concrete run.  [get_min_nobs_frame] delivers the border
    [9.25, 9.85] x [4.7, 8.3], free of obstacles.  In [scale_up_frame] the
    room's limit [xmax = 10] is found to meet [wall_block]; the loop goes
    to 9.95, then to 10.05, which is beyond the room, and commits
    [xmax = 10] without a query.  The committed frame meets the block: the
    builder stores it in [stationary_obstacles]. *)
Theorem scale_up_commits_obstructed_limit :
  (exists f0, get_min_nobs_frame near_wall (curr_state near_wall) = Ok f0
              /\ has_limits (border f0) 9.25 4.7 9.85 8.3
              /\ get_stationary_obstacles_in_frame (environment near_wall) (border f0) = Ok [])
  /\ (exists f, create_frame_min_nobs near_wall = Ok (f, None)
                /\ has_limits (border f) 9.25 4.7 10 8.3
                /\ stationary_obstacles f = Some [0%nat]
                /\ get_stationary_obstacles_in_frame (environment near_wall) (border f)
                   = Ok [0%nat]).
Proof.
  split; eexists; (split; [vm_compute; reflexivity|]);
    repeat split; vm_compute; reflexivity.
Qed.

(** A vehicle of size 0.3 at the origin of a 10 x 10 room; its goal
    [(0, 1.5)] is straight ahead and the path makes a detour to the right,
    over [(1.5, 0)] and [(1.5, 1.5)]. *)
Definition detour : Problem :=
  {| curr_state := (0, 0);
     goal_state := (0, 1.5);
     veh_size := 0.3;
     frame_size := 2.5;
     global_path := [(0, 0); (1.5, 0); (1.5, 1.5); (0, 1.5)];
     environment := {| room_width := 10;
                       room_height := 10;
                       room_position := (0, 4);
                       obstacles := [] |};
     motion_time := 0;
     frame := blank_frame Shift;
     next_frame := None |}.

(** [point_in_frame(waypoint, frame, distance=0)] for every waypoint. *)
Definition waypoints_in_border (f : Frame) : bool :=
  forallb (fun w => point_in_frame w (border f) 0) (waypoints f).

(** C2 on a concrete run.  [(1.5, 0)] and [(1.5, 1.5)] are outside the
    first frame [-1.25, 1.25] x [-1.25, 1.25] and within reach of a shift,
    so they are kept as waypoints; the goal is found last, and the frame is
    shifted towards it, upwards only.  The final border
    [-1.25, 1.25] x [-0.64, 1.86] leaves both waypoints outside. *)
Theorem shift_frame_keeps_waypoint_outside :
  exists f, create_frame_shift detour = Ok f
            /\ has_limits (border f) (-1.25) (-0.64) 1.25 1.86
            /\ waypoints f = [(0, 0); (1.5, 0); (1.5, 1.5); (0, 1.5)]
            /\ point_in_frame (1.5, 0) (border f) 0 = false
            /\ point_in_frame (1.5, 1.5) (border f) 0 = false
            /\ waypoints_in_border f = false.
Proof.
  eexists. split; [vm_compute; reflexivity|].
  repeat split; vm_compute; reflexivity.
Qed.

(** The frame [create_frame] builds for [near_wall]: its endpoint is the
    goal. *)
Definition terminal_frame : Frame :=
  {| ftype := MinNobs;
     border := make_border 9.25 4.7 10 8.3;
     waypoints := [(9.55, 5); (9.55, 8)];
     endpoint_frame := Some (9.55, 8);
     stationary_obstacles := Some [0%nat];
     moving_obstacles := None |}.

Definition in_terminal_frame : Problem := set_frames near_wall terminal_frame (Some None).

Lemma stop_criterium_only_in_terminal_frame_witness :
  (stop_criterium in_terminal_frame true = Ok (Some true)
     <-> pt_eq (9.55, 8) (goal_state in_terminal_frame) /\ true = true)
  /\ (~ pt_eq (9.55, 8) (goal_state in_terminal_frame) ->
        stop_criterium in_terminal_frame true = Ok (Some false))
  /\ (exists r, stop_criterium in_terminal_frame true = Ok r
        /\ (truthy r = true -> pt_eq (9.55, 8) (goal_state in_terminal_frame) /\ true = true)).
Proof.
  apply stop_criterium_only_in_terminal_frame. reflexivity.
Defined.

(** An empty 10 x 10 room around [(0, 4)]; the vehicle of size 0.3 is at
    the origin and the path leads straight up to the goal [(0, 8)]. *)
Definition open_room : Problem :=
  {| curr_state := (0, 0);
     goal_state := (0, 8);
     veh_size := 0.3;
     frame_size := 2.5;
     global_path := [(0, 0); (0, 2); (0, 4); (0, 6); (0, 8)];
     environment := {| room_width := 10;
                       room_height := 10;
                       room_position := (0, 4);
                       obstacles := [] |};
     motion_time := 0;
     frame := blank_frame MinNobs;
     next_frame := None |}.

(** [open_room] after [create_frame]. *)
Definition open_room_made : Problem :=
  match create_frame open_room with
  | Ok made => made
  | Raise _ => open_room
  end.


Example open_room_frame :
  has_limits (border (frame open_room_made)) (-5) (-1) 5 9
  /\ waypoints (frame open_room_made) = global_path open_room
  /\ endpoint_frame (frame open_room_made) = Some (0, 8)
  /\ next_frame open_room_made = Some None.
Proof. repeat split; vm_compute; reflexivity. Qed.

(** ** Closed instances of the further properties *)

Lemma point_in_frame_smaller_margin_witness :
  point_in_frame (5, 5) scenario_border 0 = true.
Proof.
  apply (point_in_frame_smaller_margin (5, 5) scenario_border 0.5 0).
  - vm_compute. discriminate.
  - vm_compute. reflexivity.
Defined.

Lemma sampling_step_below_interval_witness :
  (1 <= sample_count 2)%Z /\ 2 / inject_Z (sample_count 2) < 0.5.
Proof.
  apply (sampling_step_below_interval 2). vm_compute. discriminate.
Defined.

Lemma point_in_frame_moving_ends_witness :
  exists hit, point_in_frame_moving (3, 5) (1, 0) scenario_border 2 = Ok hit
    /\ (point_in_frame (3, 5) scenario_border 0 = true -> hit = true)
    /\ (point_in_frame (fst (3, 5) + 2 * fst (1, 0), snd (3, 5) + 2 * snd (1, 0))
          scenario_border 0 = true -> hit = true).
Proof.
  apply (point_in_frame_moving_ends (3, 5) (1, 0) scenario_border 2).
  vm_compute. discriminate.
Defined.

Lemma stationary_query_exact_witness :
  In 0%nat [0%nat] <->
  exists o, nth_error (obstacles (environment near_wall)) 0 = Some o
            /\ is_stationary o = true
            /\ overlaps (make_border 9.25 4.7 10 8.3) o = true.
Proof.
  apply (stationary_query_exact (environment near_wall) (make_border 9.25 4.7 10 8.3)
           [0%nat]).
  vm_compute. reflexivity.
Defined.

Lemma stationary_query_monotone_witness :
  exists found',
    get_stationary_obstacles_in_frame (environment near_wall) (make_border 9 4 10 9)
    = Ok found'
    /\ incl [0%nat] found'.
Proof.
  apply (stationary_query_monotone (environment near_wall)
           (make_border 9.25 4.7 10 8.3) (make_border 9 4 10 9) [0%nat]).
  - repeat split; vm_compute; discriminate.
  - vm_compute. reflexivity.
Defined.

Lemma moving_query_returns_witness :
  exists obs' moving changed,
    get_moving_obstacles_in_frame [far_obstacle; near_obstacle] scenario_border 2 None
    = Ok (obs', (moving, changed)).
Proof.
  apply (moving_query_returns [far_obstacle; near_obstacle] scenario_border 2 None).
  vm_compute. discriminate.
Defined.

Lemma moving_query_only_sets_flags_witness :
  length [set_avoid far_obstacle false; near_obstacle]
  = length [far_obstacle; near_obstacle]
  /\ forall i o, nth_error [far_obstacle; near_obstacle] i = Some o ->
       exists a, nth_error [set_avoid far_obstacle false; near_obstacle] i
                 = Some (set_avoid o a)
                 /\ (is_moving o = false -> a = avoid o).
Proof.
  apply (moving_query_only_sets_flags [far_obstacle; near_obstacle] _ scenario_border 2
           (Some [0%nat; 1%nat]) [0%nat; 1%nat] false).
  vm_compute. reflexivity.
Defined.

Lemma moving_query_count_change_witness :
  exists changed,
    get_moving_obstacles_in_frame [near_obstacle] scenario_border 2 (Some [])
    = Ok ([near_obstacle], ([0%nat], changed))
    /\ changed = true.
Proof.
  eexists. split; [vm_compute; reflexivity|].
  apply (moving_query_count_change [near_obstacle] [near_obstacle] scenario_border 2
           [] [0%nat] true).
  - vm_compute. reflexivity.
  - vm_compute. discriminate.
Defined.

Lemma update_frame_holds_both_points_witness :
  exists b' found,
    update_frame_with_waypoint open_room (make_border (-1) (-1) 1 1) (0, 0) (0, 2)
    = Ok (b', found)
    /\ point_in_frame (0, 0) b' 0 = true
    /\ point_in_frame (0, 2) b' 0 = true
    /\ get_stationary_obstacles_in_frame (environment open_room) b' = Ok found.
Proof.
  eexists. eexists. split; [vm_compute; reflexivity|].
  apply (update_frame_holds_both_points open_room (make_border (-1) (-1) 1 1)).
  - vm_compute. discriminate.
  - vm_compute. reflexivity.
  - vm_compute. reflexivity.
Defined.

Lemma get_min_nobs_frame_free_or_seed_witness :
  exists f,
    get_min_nobs_frame near_wall (curr_state near_wall) = Ok f
    /\ (get_stationary_obstacles_in_frame (environment near_wall) (border f) = Ok []
        \/ limits (border f) = seed_limits near_wall (curr_state near_wall)).
Proof.
  eexists. split; [vm_compute; reflexivity|].
  apply (get_min_nobs_frame_free_or_seed near_wall (curr_state near_wall)).
  vm_compute. reflexivity.
Defined.

Lemma get_min_nobs_frame_waypoints_run_witness :
  exists f,
    get_min_nobs_frame open_room (curr_state open_room) = Ok f
    /\ ftype f = MinNobs
    /\ waypoints f <> []
    /\ exists n, waypoints f
                 = firstn n (skipn (closest_index open_room (curr_state open_room))
                               (global_path open_room)).
Proof.
  eexists. split; [vm_compute; reflexivity|].
  apply (get_min_nobs_frame_waypoints_run open_room (curr_state open_room)).
  vm_compute. reflexivity.
Defined.

Lemma scale_up_frame_failures_witness :
  scale_up_frame near_wall (blank_frame MinNobs) = Raise IndexError
  /\ (IndexError = RuntimeError \/ IndexError = IndexError \/ IndexError = ValueError).
Proof.
  split; [vm_compute; reflexivity|].
  apply (scale_up_frame_failures near_wall (blank_frame MinNobs) IndexError).
  vm_compute. reflexivity.
Defined.

(** The frame [get_min_nobs_frame] delivers for [near_wall]. *)
Definition near_wall_seed : Frame :=
  {| ftype := MinNobs;
     border := make_border 9.25 4.7 9.85 8.3;
     waypoints := [(9.55, 5); (9.55, 8)];
     endpoint_frame := None;
     stationary_obstacles := None;
     moving_obstacles := None |}.

Lemma scale_up_frame_keeps_room_points_witness :
  exists b wps,
    scale_up_frame near_wall near_wall_seed = Ok (b, wps)
    /\ point_in_frame (9.55, 5) b 0 = true.
Proof.
  eexists. eexists. split; [vm_compute; reflexivity|].
  apply (scale_up_frame_keeps_room_points near_wall near_wall_seed _
           [(9.55, 5); (9.55, 8)] (9.55, 5)).
  - vm_compute. reflexivity.
  - repeat split; vm_compute; discriminate.
  - vm_compute. reflexivity.
Defined.

(** A thin post to the right of the vehicle, across the path from
    [(0, 0)] to [(2, 0)] and on to the goal [(4, 0)]. *)
Definition post : Obstacle :=
  {| obs_shape := Rectangle 0.1 1 0;
     sim_velocity := None;
     signals_position := (2.25, 0);
     signals_velocity := (0, 0);
     avoid := true |}.

Definition behind_post : Problem :=
  {| curr_state := (0, 0);
     goal_state := (4, 0);
     veh_size := 0.3;
     frame_size := 2.5;
     global_path := [(0, 0); (2, 0); (4, 0)];
     environment := {| room_width := 10;
                       room_height := 10;
                       room_position := (2, 2);
                       obstacles := [post] |};
     motion_time := 0;
     frame := blank_frame MinNobs;
     next_frame := None |}.

(** The frame [get_min_nobs_frame] delivers for [behind_post]: the seed
    square with the first waypoint only, since the margin beyond [(2, 0)]
    would meet the post. *)
Definition behind_post_seed : Frame :=
  {| ftype := MinNobs;
     border := make_border (-0.36) (-0.36) 0.36 0.36;
     waypoints := [(0, 0)];
     endpoint_frame := None;
     stationary_obstacles := None;
     moving_obstacles := None |}.

(** Scaling stops at [xmax = 2.16], short of the post, and picks up the
    waypoint [(2, 0)]. *)
Example behind_post_scaled :
  (exists f, get_min_nobs_frame behind_post (curr_state behind_post) = Ok f
             /\ waypoints f = waypoints behind_post_seed
             /\ limits (border f) = limits (border behind_post_seed))
  /\ exists b, scale_up_frame behind_post behind_post_seed = Ok (b, [(0, 0); (2, 0)])
               /\ has_limits b (-3) (-3) 2.16 7.
Proof.
  split.
  - eexists. split; [vm_compute; reflexivity|]. split; reflexivity.
  - eexists. split; [vm_compute; reflexivity|]. repeat split; vm_compute; reflexivity.
Qed.

Lemma scale_up_frame_appends_waypoints_witness :
  exists b,
    scale_up_frame behind_post behind_post_seed = Ok (b, [(0, 0); (2, 0)])
    /\ exists extra, [(0, 0); (2, 0)] = waypoints behind_post_seed ++ extra
         /\ forall q, In q extra ->
              In q (global_path behind_post) /\ point_in_frame q b 0 = true.
Proof.
  eexists. split; [vm_compute; reflexivity|].
  apply (scale_up_frame_appends_waypoints behind_post behind_post_seed).
  vm_compute. reflexivity.
Defined.

Lemma distance_to_border_inside_witness :
  fst (distance_to_border (1, 2) square_border)
    == (if fst (1, 2) - b_xmin square_border <? b_xmax square_border - fst (1, 2)
        then - (fst (1, 2) - b_xmin square_border)
        else b_xmax square_border - fst (1, 2))
  /\ snd (distance_to_border (1, 2) square_border)
    == (if b_ymax square_border - snd (1, 2) <? snd (1, 2) - b_ymin square_border
        then b_ymax square_border - snd (1, 2)
        else - (snd (1, 2) - b_ymin square_border)).
Proof.
  apply (distance_to_border_inside (1, 2) square_border exact_sqrt_of_square).
  - vm_compute. reflexivity.
  - vm_compute. reflexivity.
  - vm_compute. reflexivity.
Defined.

Lemma clearance_test_meaning_witness :
  any_too_close 0.3 (distance_to_border (5, 5) square_border) = false
  <-> (b_xmin square_border + 0.3 < fst (5, 5)
       /\ fst (5, 5) < b_xmax square_border - 0.3)
      /\ (b_ymin square_border + 0.3 < snd (5, 5)
          /\ snd (5, 5) < b_ymax square_border - 0.3).
Proof.
  apply (clearance_test_meaning 0.3 (5, 5) square_border exact_sqrt_of_square).
  - vm_compute. reflexivity.
  - vm_compute. reflexivity.
  - vm_compute. reflexivity.
Defined.

Lemma push_border_clears_endpoint_witness :
  point_in_frame (9.9, 5)
    (push_border 0.3 (limits square_border) square_border (9.9, 5)) 0.3 = true.
Proof.
  apply (push_border_clears_endpoint 0.3 square_border (9.9, 5) exact_sqrt_of_square).
  - vm_compute. discriminate.
  - vm_compute. discriminate.
  - vm_compute. discriminate.
  - vm_compute. reflexivity.
  - vm_compute. reflexivity.
  - vm_compute. reflexivity.
  - vm_compute. reflexivity.
  - vm_compute. reflexivity.
Defined.

Lemma move_frame_in_room_holds_state_witness :
  exists xmin ymin xmax ymax,
    move_frame detour 0 1.5 0.625 = (xmin, ymin, xmax, ymax)
    /\ inside (curr_state detour) (xmin, ymin, xmax, ymax)
    /\ (room_xmin (environment detour) <= xmin /\ xmax <= room_xmax (environment detour))
    /\ (room_ymin (environment detour) <= ymin /\ ymax <= room_ymax (environment detour))
    /\ xmax - xmin <= frame_size detour
    /\ ymax - ymin <= frame_size detour.
Proof.
  eexists. eexists. eexists. eexists. split; [vm_compute; reflexivity|].
  apply (move_frame_in_room_holds_state detour 0 1.5 0.625).
  - repeat split; vm_compute; discriminate.
  - vm_compute. discriminate.
  - vm_compute. discriminate.
  - vm_compute. discriminate.
  - vm_compute. reflexivity.
Defined.

(** Two waypoints towards the x-max edge of [square_border]; the last
    one is 0.1 from it. *)
Definition toward_edge : list point := [(5, 5); (9.9, 5)].

Lemma move_waypoint_keeps_clear_prefix_witness :
  exists wps',
    move_waypoint new_waypoint_next 0.3 square_border toward_edge = Ok wps'
    /\ exists lastp, last_waypoint toward_edge = Ok lastp
         /\ ((any_too_close 0.3 (distance_to_border lastp square_border) = false
              /\ wps' = toward_edge)
             \/ (any_too_close 0.3 (distance_to_border lastp square_border) = true
                 /\ exists n far p,
                      (0 < n < length toward_edge)%nat
                      /\ wps' = firstn n toward_edge ++ [p]
                      /\ last_waypoint (firstn n toward_edge) = Ok far
                      /\ any_too_close 0.3 (distance_to_border far square_border) = false
                      /\ new_waypoint_next 0.3 square_border far lastp = Some p)).
Proof.
  eexists. split; [vm_compute; reflexivity|].
  apply (move_waypoint_keeps_clear_prefix new_waypoint_next 0.3 square_border toward_edge).
  vm_compute. reflexivity.
Defined.

Lemma create_frame_fills_frame_witness :
  ftype (frame open_room_made) = ftype (frame open_room)
  /\ frame_complete (environment open_room_made) (frame open_room_made)
  /\ (curr_state open_room_made = curr_state open_room
      /\ goal_state open_room_made = goal_state open_room
      /\ global_path open_room_made = global_path open_room
      /\ environment open_room_made = environment open_room
      /\ motion_time open_room_made = motion_time open_room)
  /\ match ftype (frame open_room) with
     | Shift => next_frame open_room_made = next_frame open_room
     | MinNobs =>
         exists nf, next_frame open_room_made = Some nf
           /\ forall f', nf = Some f' ->
                ftype f' = MinNobs /\ frame_complete (environment open_room_made) f'
     | OtherType => False
     end.
Proof.
  apply (create_frame_fills_frame open_room open_room_made).
  vm_compute. reflexivity.
Defined.


Lemma shift_frame_waypoints_within_reach_witness :
  exists f,
    create_frame_shift detour = Ok f
    /\ (endpoint_frame f = Some (1.5, 0)
        \/ (In (1.5, 0) (global_path detour)
            /\ near_state detour (frame_size detour * 0.75) (1.5, 0))).
Proof.
  eexists. split; [vm_compute; reflexivity|].
  apply (shift_frame_waypoints_within_reach detour _ (1.5, 0)).
  - vm_compute. discriminate.
  - vm_compute. reflexivity.
  - right. left. reflexivity.
Defined.

Lemma init_guess_length_is_net_displacement_witness :
  exists lastp,
    last_waypoint [(0, 0); (1.5, 0); (1.5, 1.5); (0, 1.5)] = Ok lastp
    /\ fst (total_length [(0, 0); (1.5, 0); (1.5, 1.5); (0, 1.5)] (0, 0))
       == fst lastp - fst (curr_state detour)
    /\ snd (total_length [(0, 0); (1.5, 0); (1.5, 1.5); (0, 1.5)] (0, 0))
       == snd lastp - snd (curr_state detour).
Proof.
  apply (init_guess_length_is_net_displacement detour
           [(3, 3); (1.5, 0); (1.5, 1.5); (0, 1.5)]).
  reflexivity.
Defined.

(** A holonomic vehicle with velocity bounds 1 on both axes. *)
Definition point_mass : Vehicle :=
  {| holonomic := true; vmax := None; vxmax := 1; vymax := 1 |}.



(** What [get_init_guess] returns for [open_room_made]: the abscissae,
    reduced, and the motion time. *)
Definition open_room_guess : option (list Q * list Q * Q) :=
  match get_init_guess open_room_made point_mass with
  | Ok g =>
      match guess_times g with
      | Some (time_x, time_y) =>
          Some (map Qred time_x, map Qred time_y, Qred (guess_motion_time g))
      | None => None
      end
  | Raise _ => None
  end.

(** The straight path of [open_room]: no displacement in x, so the
    abscissae of y are used for both axes; 8 to travel at half of the
    velocity bound 1. *)
Example get_init_guess_open_room :
  open_room_guess
  = Some ([0; 1 # 4; 1 # 2; 3 # 4; 1], [0; 1 # 4; 1 # 2; 3 # 4; 1], 16).
Proof. vm_compute. reflexivity. Qed.

(** A square pillar in the middle of a 10 x 10 room around [(2, 2)]. *)
Definition pillar : Obstacle :=
  {| obs_shape := Rectangle 1 1 0;
     sim_velocity := None;
     signals_position := (2, 2);
     signals_velocity := (0, 0);
     avoid := true |}.

(** The path goes around the pillar, from [(0, 0)] over [(4, 0)] to the
    goal [(4, 4)]. *)
Definition around_pillar : Problem :=
  {| curr_state := (0, 0);
     goal_state := (4, 4);
     veh_size := 0.3;
     frame_size := 2.5;
     global_path := [(0, 0); (2, 0); (4, 0); (4, 2); (4, 4)];
     environment := {| room_width := 10;
                       room_height := 10;
                       room_position := (2, 2);
                       obstacles := [pillar] |};
     motion_time := 0;
     frame := blank_frame MinNobs;
     next_frame := None |}.

(** [around_pillar] after [create_frame]: the frame below the pillar, and
    the next frame to its right. *)
Definition around_pillar_made : Problem :=
  match create_frame around_pillar with
  | Ok made => made
  | Raise _ => around_pillar
  end.

Definition around_pillar_next : Frame :=
  match next_frame around_pillar_made with
  | Some (Some f) => f
  | _ => blank_frame MinNobs
  end.

(** The vehicle has entered the next frame, at [(4, 0.5)]. *)
Definition around_pillar_later : Problem :=
  {| curr_state := (4, 0.5);
     goal_state := goal_state around_pillar_made;
     veh_size := veh_size around_pillar_made;
     frame_size := frame_size around_pillar_made;
     global_path := global_path around_pillar_made;
     environment := environment around_pillar_made;
     motion_time := motion_time around_pillar_made;
     frame := frame around_pillar_made;
     next_frame := next_frame around_pillar_made |}.

Example around_pillar_frames :
  has_limits (border (frame around_pillar_made)) (-3) (-3) 7 1.46
  /\ waypoints (frame around_pillar_made) = [(0, 0); (2, 0); (4, 0)]
  /\ has_limits (border around_pillar_next) 2.54 (-3) 7 7
  /\ waypoints around_pillar_next = [(4, 0); (4, 2); (4, 4)].
Proof. repeat split; vm_compute; reflexivity. Qed.

Lemma update_frame_promotes_next_frame_witness :
  exists self' moving,
    update_frame around_pillar_later point_mass [(4, 0.5); (4, 2)] None
      (Some around_pillar_next) = Ok (self', moving)
    /\ exists f new_frame,
         next_frame around_pillar_later = Some (Some f)
         /\ ftype (frame self') = ftype f
         /\ border (frame self') = border f
         /\ endpoint_frame (frame self') = endpoint_frame f
         /\ stationary_obstacles (frame self') = stationary_obstacles f
         /\ (exists first rest,
               waypoints f = first :: rest
               /\ waypoints (frame self') = curr_state around_pillar_later :: rest)
         /\ global_path self' = [(4, 0.5); (4, 2)] ++ [goal_state around_pillar_later]
         /\ create_next_frame (replanned around_pillar_later [(4, 0.5); (4, 2)])
              around_pillar_next = Ok new_frame
         /\ next_frame self' = Some new_frame.
Proof.
  eexists. eexists. split; [vm_compute; reflexivity|].
  apply (update_frame_promotes_next_frame around_pillar_later point_mass
           [(4, 0.5); (4, 2)] None around_pillar_next _ []).
  vm_compute. reflexivity.
Defined.

(** A disc at rest in the frame, and a disc that stands still on a
    simulated trajectory with velocity. *)
Definition parked : Obstacle :=
  {| obs_shape := Circle 0.2;
     sim_velocity := None;
     signals_position := (1, 1);
     signals_velocity := (0, 0);
     avoid := true |}.

Definition halted : Obstacle :=
  {| obs_shape := Circle 0.2;
     sim_velocity := Some [(1, 0)];
     signals_position := (0.5, 0.5);
     signals_velocity := (0, 0);
     avoid := true |}.

(** The vehicle of [detour], with a shift frame, among three obstacles:
    [parked], the moving [far_obstacle], and [halted]. *)
Definition crowded : Problem :=
  {| curr_state := (0, 0);
     goal_state := (0, 1.5);
     veh_size := 0.3;
     frame_size := 2.5;
     global_path := [];
     environment := {| room_width := 10;
                       room_height := 10;
                       room_position := (0, 4);
                       obstacles := [parked; far_obstacle; halted] |};
     motion_time := 0;
     frame := blank_frame Shift;
     next_frame := None |}.

Definition crowded_updated : Problem :=
  match update_frame crowded point_mass [(0, 0); (1.5, 0); (1.5, 1.5)] None None with
  | Ok (updated, _) => updated
  | Raise _ => crowded
  end.

(** The local problem gets [parked] and [far_obstacle]; [halted] lies in
    the border [-1.25, 1.25] x [-0.64, 1.86] and is left out. *)
Example crowded_local_problem :
  (exists lp, generate_problem crowded_updated = Ok lp
              /\ local_obstacles lp = [0%nat; 1%nat])
  /\ has_limits (border (frame crowded_updated)) (-1.25) (-0.64) 1.25 1.86
  /\ overlaps (border (frame crowded_updated)) halted = true
  /\ is_stationary halted = false
  /\ is_moving halted = false.
Proof.
  split; [eexists; split; vm_compute; reflexivity|].
  repeat split; vm_compute; reflexivity.
Qed.

Lemma update_frame_local_obstacles_witness :
  exists lp endpoint,
    generate_problem crowded_updated = Ok lp
    /\ local_room_shape lp = border_shape (border (frame crowded_updated))
    /\ local_room_position lp = border_position (border (frame crowded_updated))
    /\ endpoint_frame (frame crowded_updated) = Some endpoint
    /\ final_velocity_constraint lp = pt_eqb endpoint (goal_state crowded)
    /\ forall i, In i (local_obstacles lp) <->
         exists o, nth_error (obstacles (environment crowded)) i = Some o
           /\ ((is_stationary o = true
                /\ overlaps (border (frame crowded_updated)) o = true)
               \/ is_moving o = true).
Proof.
  apply (update_frame_local_obstacles crowded point_mass
           [(0, 0); (1.5, 0); (1.5, 1.5)] None crowded_updated [1%nat]).
  vm_compute. reflexivity.
Defined.

(** ** Closed instances on the updated problem *)

(** [open_room] after [update_frame()]: the frame of [create_frame] over
    the path planned anew, with its first waypoint rewritten and its
    moving obstacles set. *)
Definition open_room_updated : Problem :=
  match update_frame open_room point_mass [(0, 0); (0, 2); (0, 4); (0, 6)] None None with
  | Ok (updated, _) => updated
  | Raise _ => open_room
  end.

(** A control step later: the vehicle has moved on to [(3, 7)] and the
    motion time is 1.5; the frame is the one [update_frame] left. *)
Definition open_room_step : Problem :=
  {| curr_state := (3, 7);
     goal_state := goal_state open_room_updated;
     veh_size := veh_size open_room_updated;
     frame_size := frame_size open_room_updated;
     global_path := global_path open_room_updated;
     environment := environment open_room_updated;
     motion_time := 1.5;
     frame := frame open_room_updated;
     next_frame := next_frame open_room_updated |}.

(** The frame at that step is not the frame as [create_frame] left it:
    the moving obstacles are set. *)
Example open_room_step_frame :
  moving_obstacles (frame open_room_step) = Some []
  /\ moving_obstacles (frame open_room_made) = None
  /\ frame open_room_step <> frame open_room_made.
Proof.
  split; [vm_compute; reflexivity|]. split; [vm_compute; reflexivity|].
  intro Heq. apply (f_equal moving_obstacles) in Heq. vm_compute in Heq. discriminate.
Qed.

Lemma check_frame_valid_once_endpoint_is_goal_witness :
  check_frame open_room_step = Ok (Some true).
Proof.
  apply (check_frame_valid_once_endpoint_is_goal open_room open_room_step
           (frame open_room_made) (0, 0) (0, 8)).
  - apply (made_by_create_frame open_room _ _ open_room_made);
      vm_compute; reflexivity.
  - vm_compute. discriminate.
  - vm_compute. repeat split; discriminate.
  - vm_compute. reflexivity.
  - vm_compute. reflexivity.
  - split; reflexivity.
  - vm_compute. reflexivity.
  - vm_compute. reflexivity.
  - reflexivity.
Defined.

(** A rectangular vehicle of 0.6 by 0.4 in [open_room]'s environment. *)
Definition box_vehicle : Shape := Rectangle 0.6 0.4 0.


(** The box vehicle 0.65 from the x-max edge of [square_border]: nearer
    than the envelope from the product [0.6 * 1.2] and farther than the
    size 0.6, so the correction leaves the waypoint where it is. *)
Example box_vehicle_waypoint_kept :
  move_waypoint new_waypoint_next (vehicle_size box_vehicle) square_border
    [(5, 5); (9.35, 5)] = Ok [(5, 5); (9.35, 5)]
  /\ b_xmax square_border - 9.35 < vehicle_size box_vehicle * scale_factor.
Proof. split; vm_compute; reflexivity. Qed.
